(** * store/store.go: the in-memory key-value store with expiring keys

    The store is a process-wide map from keys to nodes.  A node with an
    expiration instant is watched by a goroutine [expire] that deletes the
    key when its timer elapses; [Set] and [Delete] talk to that goroutine
    over the node's [update] channel.  [Save] and [Recovery] write and
    read the map as JSON.

    The embedding threads the store and the runtime around it (live
    [expire] goroutines, channel allocation, the calls made to the watch
    hook, the strings sent to the messager) explicitly.  The Go library
    functions the file calls (path.Clean, json.Marshal, json.Unmarshal)
    are an interface, [GoLib].  What the file prints with fmt.Println is
    left out. *)

From Stdlib Require Import ZArith NArith Lia.
From Stdlib.Strings Require Import Byte Ascii.
From stdpp Require Import gmap strings list fin_maps pretty.

Local Open Scope Z_scope.

(** ** Package time *)

Module time.
(** An instant is its number of nanoseconds since the Unix epoch; a
    Duration is an int64 count of nanoseconds. *)
Abbreviation Time := Z (only parsing).
Abbreviation Duration := Z (only parsing).

Definition minDuration : Duration := - 2 ^ 63.
Definition maxDuration : Duration := 2 ^ 63 - 1.
Definition Second : Duration := 1000000000.

Definition Unix (sec nsec : Z) : Time := sec * 1000000000 + nsec.

Definition Equal (t u : Time) : bool := t =? u.

(** [t.Sub(u)] is [t - u], saturated to the range of a Duration. *)
Definition Sub (t u : Time) : Duration :=
  let d := t - u in
  if d <? minDuration then minDuration
  else if maxDuration <? d then maxDuration
  else d.
End time.

(** ** Constants and data *)

Definition ERROR : Z := -1.
Definition SET : Z := 0.
Definition DELETE : Z := 1.
Definition GET : Z := 2.

Definition PERMANENT : time.Time := time.Unix 0 0.

(** A channel of instants is known by its identity; [None] is the nil
    channel. *)
Abbreviation chan := nat (only parsing).

Record Node := mkNode {
  Value : string;
  ExpireTime : time.Time;
  update : option chan
}.

Record Response := mkResponse {
  Action : Z;
  Key : string;
  OldValue : string;
  NewValue : string;
  Exist : bool;
  Expiration : time.Time;
  Index : N
}.

Abbreviation error := string (only parsing).

(** A goroutine running [expire(key, update, expireTime)], parked in its
    select: [t_key] is its key and [t_expire] the instant its countdown
    was last computed for. *)
Record Task := mkTask {
  t_key : string;
  t_expire : time.Time
}.

(** The global store [s] ([Nodes], [messager]) and the runtime around it.
    [messager] is nil or a channel, given by the strings sent to it so
    far; [hub] lists the envelopes passed to the watch hook, oldest first;
    [tasks] maps the update channel of every live [expire] goroutine to
    that goroutine; [chans] counts the channels made. *)
Record World := mkWorld {
  Nodes : gmap string Node;
  messager : option (list string);
  hub : list Response;
  tasks : gmap chan Task;
  chans : chan
}.

(** What a call does: it returns [a] and leaves the world [w], or it
    parks for ever on a channel send with the world as it was then. *)
Inductive Outcome (A : Type) :=
  | Done (a : A) (w : World)
  | Blocked (w : World).
Arguments Done {A} a w.
Arguments Blocked {A} w.

Definition M (A : Type) : Type := World → Outcome A.

Definition ret {A} (a : A) : M A := λ w, Done a w.

Definition bind {A B} (m : M A) (k : A → M B) : M B :=
  λ w, match m w with
       | Done a w' => k a w'
       | Blocked w' => Blocked w'
       end.

Notation "'let!' x := m 'in' k" := (bind m (λ x, k))
  (at level 10, x pattern, m at level 100, k at level 200).

Definition act (f : World → World) : M unit := λ w, Done tt (f w).

Definition world_of {A} (o : Outcome A) : World :=
  match o with Done _ w => w | Blocked w => w end.

(** ** Steps on the world *)

(** [s.Nodes[key] = node] *)
Definition store (key : string) (node : Node) (w : World) : World :=
  mkWorld (<[key := node]> (Nodes w)) (messager w) (hub w) (tasks w) (chans w).

(** [delete(s.Nodes, key)] *)
Definition remove (key : string) (w : World) : World :=
  mkWorld (delete key (Nodes w)) (messager w) (hub w) (tasks w) (chans w).

(** [make(chan time.Time)] *)
Definition make_chan (w : World) : chan * World :=
  (chans w, mkWorld (Nodes w) (messager w) (hub w) (tasks w) (S (chans w))).

(** [go expire(key, update, expireTime)] *)
Definition go_expire (key : string) (update : chan) (expireTime : time.Time)
    (w : World) : World :=
  mkWorld (Nodes w) (messager w) (hub w)
          (<[update := mkTask key expireTime]> (tasks w)) (chans w).

(** The goroutine on channel [c] returns. *)
Definition exit_task (c : chan) (w : World) : World :=
  mkWorld (Nodes w) (messager w) (hub w) (delete c (tasks w)) (chans w).

(** Modelled from the spec: the watch hook [notify] is defined in another
    file of the package, which is not among the sources; the spec gives it
    as a synchronous call that takes the envelope and whose fan-out is out
    of scope.  A call is recorded in [hub]. *)
Definition notify (resp : Response) (w : World) : World :=
  mkWorld (Nodes w) (messager w) (hub w ++ [resp]) (tasks w) (chans w).

(** [if s.messager != nil && err == nil { *s.messager <- string(msg) }];
    the reader of the channel is outside the package and is taken to
    receive what is sent. *)
Definition forward (msg : list byte) (err : option error) (w : World) : World :=
  match messager w, err with
  | Some sent, None =>
      mkWorld (Nodes w) (Some (sent ++ [String.string_of_list_byte msg])) (hub w)
              (tasks w) (chans w)
  | _, _ => w
  end.

(** [s.SetMessager(messager)] *)
Definition SetMessager (m : option (list string)) (w : World) : World :=
  mkWorld (Nodes w) m (hub w) (tasks w) (chans w).

(** [createStore()], with [s.messager = nil] as [init] leaves it, in a
    process with no goroutine started yet. *)
Definition createStore : World := mkWorld ∅ None [] ∅ 0%nat.

(** *** The expire goroutine *)

(** [duration := expireTime.Sub(time.Now())], and the same for a new
    instant read from the channel. *)
Definition expire_duration (expireTime now : time.Time) : time.Duration :=
  time.Sub expireTime now.

(** [case updateTime := <-update]: the goroutine returns on PERMANENT and
    otherwise goes round the loop with a countdown for [updateTime]. *)
Definition expire_update (t : Task) (updateTime : time.Time) : option Task :=
  if time.Equal updateTime PERMANENT then None
  else Some (mkTask (t_key t) updateTime).

(** [update <- t], an unbuffered send: it completes when a goroutine
    receives on that channel, and parks the sender for ever on the nil
    channel or when no goroutine is left to receive. *)
Definition send (c : option chan) (t : time.Time) : M unit :=
  λ w, match c with
       | None => Blocked w
       | Some c =>
           match tasks w !! c with
           | None => Blocked w
           | Some task =>
               match expire_update task t with
               | None => Done tt (exit_task c w)
               | Some task' =>
                   Done tt (mkWorld (Nodes w) (messager w) (hub w)
                                    (<[c := task']> (tasks w)) (chans w))
               end
           end
       end.

(** ** The library interface *)

(** [Clean] is path.Clean; [Marshal] is json.Marshal on a Response and
    [MarshalStore] on the store, of which only the exported field Nodes
    with the exported, untagged fields of each node is written.
    json.Unmarshal into the store is given by what it does to [s.Nodes]:
    [UnmarshalNull] tells whether the decoder met null for "nodes", for
    which it sets the map to nil, and [Unmarshal] gives the members of
    the "nodes" object that it stores into the map after that, in the
    order it stores them, and the error it returns.  (Members stored
    before a null go with the map and are not among them.) *)
Class GoLib := {
  Clean : string → string;
  Marshal : Response → list byte * option error;
  MarshalStore : gmap string (string * time.Time) → list byte * option error;
  Unmarshal : list byte → list (string * (string * time.Time)) * option error;
  UnmarshalNull : list byte → bool
}.

Section Store.
Context `{GoLib}.

(** *** Delete *)
Definition Delete (key : string) (index : N) : M (list byte * option error) :=
  let key := Clean key in
  λ w,
  match Nodes w !! key with
  | Some node =>
      (let! _ :=
         if time.Equal (ExpireTime node) PERMANENT then act (remove key)
         else
           let! _ := send (update node) PERMANENT in
           act (remove key) in
       let resp := mkResponse DELETE key (Value node) "" true (ExpireTime node) index in
       let '(msg, err) := Marshal resp in
       let! _ := act (notify resp) in
       let! _ := act (forward msg err) in
       ret (msg, err)) w
  | None =>
      ret (Marshal (mkResponse DELETE key "" "" false (time.Unix 0 0) index)) w
  end.

(** *** Set; [now] is what time.Now() reads *)
Definition Set_ (key value : string) (expireTime : time.Time) (index : N)
    (now : time.Time) : M (list byte * option error) :=
  let key := Clean key in
  let isExpire := negb (time.Equal expireTime PERMANENT) in
  if isExpire && (time.Sub expireTime now <? 0) then Delete key index
  else λ w,
  match Nodes w !! key with
  | Some node =>
      (let! update :=
         if negb (time.Equal (ExpireTime node) PERMANENT) then
           let! _ := send (update node) expireTime in
           ret (update node)
         else if isExpire then
           λ w, let '(c, w) := make_chan w in
                Done (Some c) (go_expire key c expireTime w)
         else ret (update node) in
       let! _ := act (store key (mkNode value expireTime update)) in
       let resp := mkResponse SET key (Value node) value true expireTime index in
       let '(msg, err) := Marshal resp in
       let! _ := act (notify resp) in
       let! _ := act (forward msg err) in
       ret (msg, err)) w
  | None =>
      (let! update := (λ w, let '(c, w) := make_chan w in Done c w) in
       let! _ := act (store key (mkNode value expireTime (Some update))) in
       let! _ := if isExpire then act (go_expire key update expireTime)
                 else ret tt in
       let resp := mkResponse SET key "" value false expireTime index in
       let '(msg, err) := Marshal resp in
       let! _ := act (notify resp) in
       let! _ := act (forward msg err) in
       ret (msg, err)) w
  end.

(** *** expire: [case <-time.After(duration)] for the goroutine on
    channel [c] *)
Definition expire_timeout (c : chan) (w : World) : World :=
  match tasks w !! c with
  | None => w
  | Some t =>
      let key := t_key t in
      match Nodes w !! key with
      | None => exit_task c w
      | Some node =>
          let w := remove key w in
          let resp := mkResponse DELETE key (Value node) "" true (ExpireTime node) 0 in
          let '(msg, err) := Marshal resp in
          let w := notify resp w in
          let w := forward msg err w in
          exit_task c w
      end
  end.

(** *** Get *)
Definition Get (key : string) : M Response :=
  let key := Clean key in
  λ w,
  match Nodes w !! key with
  | Some node =>
      ret (mkResponse GET key (Value node) (Value node) true (ExpireTime node) 0) w
  | None =>
      ret (mkResponse GET key "" "" false (time.Unix 0 0) 0) w
  end.

(** *** Save *)
Definition snapshot (nodes : gmap string Node) : gmap string (string * time.Time) :=
  (λ node, (Value node, ExpireTime node)) <$> nodes.

Definition Save (w : World) : list byte * option error :=
  let '(b, err) := MarshalStore (snapshot (Nodes w)) in
  match err with
  | Some e => ([], Some e)
  | None => (b, None)
  end.

(** *** clean; [now key] is what time.Now() reads when the loop is at
    [key].  The loop variable [node] is a copy of the map's node: the
    channel made for it goes to the goroutine and is not written back
    to [s.Nodes]. *)
Definition clean_visit (now : string → time.Time) (key : string) (node : Node)
    (w : World) : World :=
  if time.Equal (ExpireTime node) PERMANENT then w
  else if time.Second <=? time.Sub (ExpireTime node) (now key) then
    let '(c, w) := make_chan w in
    let node := mkNode (Value node) (ExpireTime node) (Some c) in
    go_expire key c (ExpireTime node) w
  else remove key w.

Definition clean (now : string → time.Time) (w : World) : World :=
  map_fold (clean_visit now) w (Nodes w).

(** *** Recovery.  json.Unmarshal into a map that is not nil reuses that
    map and keeps its entries; it stores each member of the JSON object,
    in order, as a value decoded into a zero Node, whose unexported
    channel field it leaves nil.  For null it sets the map to nil, and
    members met later go into a new map.  A nil map is given as the empty
    map, which it is to a lookup, to range and to delete; a store into a
    nil map panics, so [Set_] is [Set] on a map that is not nil, as
    [createStore] makes it and every call but a [Recovery] of null leaves
    it. *)
Definition decode_into (nodes : gmap string Node)
    (members : list (string * (string * time.Time))) : gmap string Node :=
  foldl (λ m e, <[e.1 := mkNode e.2.1 e.2.2 None]> m) nodes members.

Definition Recovery (state : list byte) (now : string → time.Time)
    (w : World) : option error * World :=
  let '(members, err) := Unmarshal state in
  let nodes := if UnmarshalNull state then ∅ else Nodes w in
  let w := mkWorld (decode_into nodes members) (messager w) (hub w)
                   (tasks w) (chans w) in
  (err, clean now w).
End Store.

(** ** A concrete library, to run the store on examples *)

Module Demo.
(** Lexical path cleaning as path.Clean does it, by components: empty
    and "." components go, ".." takes the component before it away, is
    dropped at the root, and stays in front of a relative path. *)
Fixpoint segments (cur s : string) : list string :=
  match s with
  | EmptyString => [cur]
  | String a s' =>
      if Ascii.eqb a "/" then cur :: segments "" s'
      else segments (cur +:+ String a "") s'
  end.

Definition clean_segment (rooted : bool) (out : list string) (seg : string)
    : list string :=
  if bool_decide (seg = "" ∨ seg = ".") then out
  else if bool_decide (seg = "..") then
    match out with
    | top :: rest =>
        if bool_decide (top = "..") then (if rooted then out else ".." :: out)
        else rest
    | [] => if rooted then out else [".."]
    end
  else seg :: out.

Fixpoint join (l : list string) : string :=
  match l with
  | [] => ""
  | [x] => x
  | x :: l' => x +:+ "/" +:+ join l'
  end.

Definition clean_path (path : string) : string :=
  let rooted := match path with String "/" _ => true | _ => false end in
  let body := join (rev (foldl (clean_segment rooted) [] (segments "" path))) in
  if rooted then "/" +:+ body
  else if bool_decide (body = "") then "." else body.

(** A plain-text stand-in for encoding/json.  As in Go, an instant
    whose year is outside 0..9999 does not encode. *)
Definition year_ok (t : time.Time) : bool :=
  (-62167219200000000000 <=? t) && (t <? 253402300800000000000).

Definition nl : string := String "010" "".

Definition encode_response (r : Response) : list byte * option error :=
  if year_ok (Expiration r) then
    (String.list_byte_of_string
       ("action=" +:+ pretty (Action r) +:+ nl +:+
        "key=" +:+ Key r +:+ nl +:+
        "oldValue=" +:+ OldValue r +:+ nl +:+
        "newValue=" +:+ NewValue r +:+ nl +:+
        "exist=" +:+ (if Exist r then "true" else "false") +:+ nl +:+
        "expiration=" +:+ pretty (Expiration r) +:+ nl +:+
        "index=" +:+ pretty (Index r) +:+ nl), None)
  else ([], Some "Time.MarshalJSON: year outside of range [0,9999]").

Definition encode_store (nodes : gmap string (string * time.Time))
    : list byte * option error :=
  if forallb (λ e, year_ok e.2.2) (map_to_list nodes) then
    (String.list_byte_of_string
       (foldr (λ e acc, e.1 +:+ nl +:+ e.2.1 +:+ nl +:+ pretty e.2.2 +:+ nl +:+ acc)
              "" (map_to_list nodes)), None)
  else ([], Some "Time.MarshalJSON: year outside of range [0,9999]").

Fixpoint lines (cur s : string) : list string :=
  match s with
  | EmptyString => if bool_decide (cur = "") then [] else [cur]
  | String a s' =>
      if Ascii.eqb a "010" then cur :: lines "" s'
      else lines (cur +:+ String a "") s'
  end.

Fixpoint digits (acc : Z) (s : string) : option Z :=
  match s with
  | EmptyString => Some acc
  | String a s' =>
      let d := Z.of_nat (nat_of_ascii a) - 48 in
      if (0 <=? d) && (d <=? 9) then digits (10 * acc + d) s' else None
  end.

Definition parse_Z (s : string) : option Z :=
  match s with
  | EmptyString => None
  | String "-" s' => Z.opp <$> digits 0 s'
  | _ => digits 0 s
  end.

Fixpoint members (l : list string) : option (list (string * (string * time.Time))) :=
  match l with
  | [] => Some []
  | k :: v :: e :: l' =>
      match parse_Z e, members l' with
      | Some t, Some rest => Some ((k, (v, t)) :: rest)
      | _, _ => None
      end
  | _ => None
  end.

(** The one line null stands for a snapshot whose nodes are null. *)
Definition decode_null (state : list byte) : bool :=
  bool_decide (lines "" (String.string_of_list_byte state) = ["null"]).

Definition decode_store (state : list byte)
    : list (string * (string * time.Time)) * option error :=
  if decode_null state then ([], None)
  else
    match members (lines "" (String.string_of_list_byte state)) with
    | Some l => (l, None)
    | None => ([], Some "invalid snapshot")
    end.

#[export] Instance lib : GoLib := {|
  Clean := clean_path;
  Marshal := encode_response;
  MarshalStore := encode_store;
  Unmarshal := decode_store;
  UnmarshalNull := decode_null
|}.
End Demo.

(** ** Vocabulary of the statements *)

(** The node at [key], when it has an expiration, holds a channel that a
    live [expire] goroutine receives on: a send to it completes. *)
Definition listening (w : World) (key : string) : Prop :=
  ∀ node, Nodes w !! key = Some node → ExpireTime node ≠ PERMANENT →
    ∃ c t, update node = Some c ∧ tasks w !! c = Some t.

(** Nodes and goroutines agree: a node with an expiration holds the
    channel of a goroutine for its key and its instant, and every live
    goroutine is the one of such a node. *)
Definition timers_ok (w : World) : Prop :=
  (∀ key node, Nodes w !! key = Some node → ExpireTime node ≠ PERMANENT →
     ∃ c, update node = Some c ∧
          tasks w !! c = Some (mkTask key (ExpireTime node))) ∧
  (∀ c t, tasks w !! c = Some t →
     (c < chans w)%nat ∧
     ∃ node, Nodes w !! t_key t = Some node ∧ update node = Some c ∧
             ExpireTime node = t_expire t ∧ t_expire t ≠ PERMANENT).

(** What the messager holds after an envelope that encoded as [r] went
    through the forwarding step. *)
Definition forwarded (m : option (list string)) (r : list byte * option error)
    : option (list string) :=
  match m, r.2 with
  | Some sent, None => Some (sent ++ [String.string_of_list_byte r.1])
  | _, _ => m
  end.

(** The expiration of the node at [key], the sentinel when there is none. *)
Definition expiration_at (w : World) (key : string) : time.Time :=
  match Nodes w !! key with
  | Some node => ExpireTime node
  | None => PERMANENT
  end.

(** A node that [clean] keeps when it reads the clock as [now]. *)
Definition kept (now : time.Time) (node : Node) : bool :=
  time.Equal (ExpireTime node) PERMANENT
  || (time.Second <=? time.Sub (ExpireTime node) now).

(** The node decoded from a member of the snapshot. *)
Definition decoded (ve : string * time.Time) : Node := mkNode ve.1 ve.2 None.

(** The codec reads back what it wrote for the map [m]: the members of
    the document are the entries of [m], in some order. *)
Definition round_trips `{GoLib} (m : gmap string (string * time.Time)) : Prop :=
  ∀ state, MarshalStore m = (state, None) →
    ∃ members, Unmarshal state = (members, None) ∧ members ≡ₚ map_to_list m.

(** One step of the process, with each call of the primary path and each
    timer that elapses taken as a whole; a goroutine's timer may elapse
    at any time. *)
Inductive step `{GoLib} : World → World → Prop :=
  | step_Set key value expireTime index now w :
      step w (world_of (Set_ key value expireTime index now w))
  | step_Delete key index w :
      step w (world_of (Delete key index w))
  | step_Get key w :
      step w (world_of (Get key w))
  | step_SetMessager m w :
      step w (SetMessager m w)
  | step_timer c w :
      step w (expire_timeout c w).

Definition reachable `{GoLib} (w : World) : Prop := rtc step createStore w.

(** An envelope as the watch hook gets them: of a SET, or of a DELETE of
    a key that was there. *)
Definition hook_envelope (r : Response) : Prop :=
  Action r = SET ∨ (Action r = DELETE ∧ Exist r = true ∧ NewValue r = "").

(** ** Worlds of the examples *)

Module Ex.
Import Demo.

(** A store with a messager and the key /t, set at 1s to expire at 5s. *)
Definition w_t : World :=
  world_of (Set_ "/t" "v" 5000000000 5 1000000000
                 (SetMessager (Some []) createStore)).

(** A store with the permanent key /a. *)
Definition w_a : World :=
  world_of (Set_ "/a" "1" PERMANENT 1 1000000000 createStore).

(** The snapshot of [w_t]. *)
Definition snap_t : list byte := (Save w_t).1.

(** An instant of year 10000, which json does not encode, and a store
    with the key /far set to expire then. *)
Definition far : time.Time := 253402300800000000000.

Definition w_far : World :=
  world_of (Set_ "/far" "v" far 1 1000000000 createStore).

(** An empty store with a messager. *)
Definition w_sink : World := SetMessager (Some []) createStore.

(** The snapshot of [w_t] recovered into an empty store at 2s, three
    seconds before /t expires. *)
Definition w_rec : World :=
  (Recovery snap_t (λ _, 2000000000) createStore).2.

Definition year_error : error :=
  "Time.MarshalJSON: year outside of range [0,9999]".

(** The store [w_t] with the permanent key /a added. *)
Definition w_ta : World :=
  world_of (Set_ "/a" "1" PERMANENT 2 1000000000 w_t).

(** The snapshot whose nodes are null. *)
Definition null_snap : list byte := String.list_byte_of_string "null".

(** Bytes that are no snapshot. *)
Definition junk : list byte := String.list_byte_of_string "x".

(** The snapshot of [w_a], with its permanent key, recovered into an
    empty store. *)
Definition w_rec_a : World :=
  (Recovery (Save w_a).1 (λ _, 2000000000) createStore).2.
End Ex.

(** * Properties *)

(** ** Instants *)

Lemma Equal_true (t u : time.Time) : time.Equal t u = true ↔ t = u.
Proof. unfold time.Equal. apply Z.eqb_eq. Qed.

Lemma Equal_false (t u : time.Time) : time.Equal t u = false ↔ t ≠ u.
Proof. unfold time.Equal. apply Z.eqb_neq. Qed.

Lemma Unix_0_0 : time.Unix 0 0 = PERMANENT.
Proof. reflexivity. Qed.

(** Saturation keeps the sign of the difference. *)
Lemma Sub_negative (t u : time.Time) : (time.Sub t u <? 0) = true ↔ t < u.
Proof.
  unfold time.Sub, time.minDuration, time.maxDuration.
  rewrite Z.ltb_lt.
  destruct (Z.ltb_spec (t - u) (- 2 ^ 63)); [lia|].
  destruct (Z.ltb_spec (2 ^ 63 - 1) (t - u)); lia.
Qed.

(** Saturation keeps the comparison with one second. *)
Lemma Sub_Second (t u : time.Time) :
  (time.Second <=? time.Sub t u) = true ↔ u + 1000000000 ≤ t.
Proof.
  unfold time.Sub, time.minDuration, time.maxDuration, time.Second.
  rewrite Z.leb_le.
  destruct (Z.ltb_spec (t - u) (- 2 ^ 63)); [lia|].
  destruct (Z.ltb_spec (2 ^ 63 - 1) (t - u)); lia.
Qed.

(** [Set] goes on to store the node unless the instant is a real one
    that is already past. *)
Lemma Set_guard (expireTime now : time.Time) :
  (negb (time.Equal expireTime PERMANENT) && (time.Sub expireTime now <? 0)) = true
  ↔ expireTime ≠ PERMANENT ∧ expireTime < now.
Proof.
  rewrite andb_true_iff, negb_true_iff, Equal_false, Sub_negative. tauto.
Qed.

Lemma Set_guard_false (expireTime now : time.Time) :
  (negb (time.Equal expireTime PERMANENT) && (time.Sub expireTime now <? 0)) = false
  ↔ expireTime = PERMANENT ∨ now ≤ expireTime.
Proof.
  rewrite <- not_true_iff_false, Set_guard.
  destruct (decide (expireTime = PERMANENT)); [tauto|]. split; [|lia].
  intros Hn. right. destruct (Z.lt_ge_cases expireTime now); [tauto | lia].
Qed.

(** ** The forwarding step *)

Lemma forward_Nodes msg err w : Nodes (forward msg err w) = Nodes w.
Proof. unfold forward. by destruct (messager w), err. Qed.

Lemma forward_hub msg err w : hub (forward msg err w) = hub w.
Proof. unfold forward. by destruct (messager w), err. Qed.

Lemma forward_tasks msg err w : tasks (forward msg err w) = tasks w.
Proof. unfold forward. by destruct (messager w), err. Qed.

Lemma forward_chans msg err w : chans (forward msg err w) = chans w.
Proof. unfold forward. by destruct (messager w), err. Qed.

Lemma forward_messager msg err w :
  messager (forward msg err w) = forwarded (messager w) (msg, err).
Proof.
  unfold forward, forwarded. simpl.
  destruct (messager w) eqn:Hm, err; simpl; by rewrite ?Hm.
Qed.

(** With no messager registered the step does nothing. *)
Lemma forwarded_nil r : forwarded None r = None.
Proof. reflexivity. Qed.

(** With a messager and an envelope that encoded, the text is sent once. *)
Lemma forwarded_once sent msg :
  forwarded (Some sent) (msg, None) = Some (sent ++ [String.string_of_list_byte msg]).
Proof. reflexivity. Qed.

(** With a messager and an envelope that did not encode, nothing is sent. *)
Lemma forwarded_error sent msg e :
  forwarded (Some sent) (msg, Some e) = Some sent.
Proof. reflexivity. Qed.

Lemma timers_ok_listening w key : timers_ok w → listening w key.
Proof.
  intros [Hn _] node Hk Hv. destruct (Hn _ _ Hk Hv) as (c & -> & Ht). eauto.
Qed.

Section Effects.
Context `{GoLib}.

(** *** What Delete does *)

Lemma Delete_absent key index w :
  Nodes w !! Clean key = None →
  Delete key index w
  = Done (Marshal (mkResponse DELETE (Clean key) "" "" false PERMANENT index)) w.
Proof. intros Hk. unfold Delete. by rewrite Hk. Qed.

Lemma Delete_present key index w node :
  Nodes w !! Clean key = Some node →
  listening w (Clean key) →
  let resp := mkResponse DELETE (Clean key) (Value node) "" true
                         (ExpireTime node) index in
  ∃ w', Delete key index w = Done (Marshal resp) w' ∧
        Nodes w' = delete (Clean key) (Nodes w) ∧
        hub w' = hub w ++ [resp] ∧
        messager w' = forwarded (messager w) (Marshal resp) ∧
        chans w' = chans w ∧
        tasks w' = match update node with
                   | Some c => if time.Equal (ExpireTime node) PERMANENT
                               then tasks w else delete c (tasks w)
                   | None => tasks w
                   end.
Proof.
  intros Hk Hl resp. unfold Delete. rewrite Hk. fold resp.
  destruct (Marshal resp) as [msg err] eqn:Hm.
  destruct (time.Equal (ExpireTime node) PERMANENT) eqn:He.
  - eexists. split; [reflexivity|].
    rewrite forward_Nodes, forward_hub, forward_messager, forward_chans,
      forward_tasks. simpl. by destruct (update node).
  - apply Equal_false in He. destruct (Hl node Hk He) as (c & t & Hc & Ht).
    unfold bind, send, expire_update. rewrite Hc, Ht. simpl.
    eexists. split; [reflexivity|].
    rewrite forward_Nodes, forward_hub, forward_messager, forward_chans,
      forward_tasks. by simpl.
Qed.
(** *** What Set does when it stores the node *)

Lemma Set_past key value expireTime index now w :
  expireTime ≠ PERMANENT → expireTime < now →
  Set_ key value expireTime index now w = Delete (Clean key) index w.
Proof.
  intros He Hn. unfold Set_.
  by rewrite (proj2 (Set_guard expireTime now) (conj He Hn)).
Qed.

Lemma Set_stores key value expireTime index now w :
  expireTime = PERMANENT ∨ now ≤ expireTime →
  listening w (Clean key) →
  let resp :=
    match Nodes w !! Clean key with
    | Some node => mkResponse SET (Clean key) (Value node) value true expireTime index
    | None => mkResponse SET (Clean key) "" value false expireTime index
    end in
  ∃ upd w',
    Set_ key value expireTime index now w = Done (Marshal resp) w' ∧
    Nodes w' = <[Clean key := mkNode value expireTime upd]> (Nodes w) ∧
    hub w' = hub w ++ [resp] ∧
    messager w' = forwarded (messager w) (Marshal resp).
Proof.
  intros Hg Hl resp. unfold Set_.
  rewrite (proj2 (Set_guard_false expireTime now) Hg).
  subst resp. destruct (Nodes w !! Clean key) as [node|] eqn:Hk.
  - set (resp := mkResponse SET _ _ _ _ _ _).
    destruct (Marshal resp) as [msg err] eqn:Hm.
    destruct (time.Equal (ExpireTime node) PERMANENT) eqn:He; simpl.
    + destruct (negb (time.Equal expireTime PERMANENT)); simpl;
        unfold bind, act, ret; simpl; do 2 eexists;
        (split; [reflexivity|]);
        by rewrite forward_Nodes, forward_hub, forward_messager.
    + apply Equal_false in He. destruct (Hl node Hk He) as (c & t & Hc & Ht).
      unfold bind, send. rewrite Hc, Ht.
      destruct (expire_update t expireTime); simpl; do 2 eexists;
        (split; [reflexivity|]);
        by rewrite forward_Nodes, forward_hub, forward_messager.
  - set (resp := mkResponse SET _ _ _ _ _ _).
    destruct (Marshal resp) as [msg err] eqn:Hm.
    destruct (negb (time.Equal expireTime PERMANENT)); simpl;
      unfold bind, act, ret; simpl; do 2 eexists;
      (split; [reflexivity|]);
      by rewrite forward_Nodes, forward_hub, forward_messager.
Qed.

(** *** What a timer that elapses does *)

Lemma expire_timeout_present c t node w :
  tasks w !! c = Some t →
  Nodes w !! t_key t = Some node →
  let resp := mkResponse DELETE (t_key t) (Value node) "" true
                         (ExpireTime node) 0 in
  let w' := expire_timeout c w in
  Nodes w' = delete (t_key t) (Nodes w) ∧
  hub w' = hub w ++ [resp] ∧
  messager w' = forwarded (messager w) (Marshal resp) ∧
  tasks w' = delete c (tasks w) ∧
  chans w' = chans w.
Proof.
  intros Ht Hk resp w'. subst w'. unfold expire_timeout. rewrite Ht, Hk.
  fold resp. destruct (Marshal resp) as [msg err]. simpl.
  by rewrite forward_Nodes, forward_hub, forward_messager, forward_tasks,
    forward_chans.
Qed.

Lemma expire_timeout_absent c t w :
  tasks w !! c = Some t →
  Nodes w !! t_key t = None →
  expire_timeout c w = exit_task c w.
Proof. intros Ht Hk. unfold expire_timeout. by rewrite Ht, Hk. Qed.

(** *** What Get does *)

Lemma Get_returns key w :
  Get key w
  = Done (match Nodes w !! Clean key with
          | Some node => mkResponse GET (Clean key) (Value node) (Value node)
                                    true (ExpireTime node) 0
          | None => mkResponse GET (Clean key) "" "" false PERMANENT 0
          end) w.
Proof. unfold Get. by destruct (Nodes w !! Clean key). Qed.
End Effects.

(** ** Cleanup and recovery *)

Section Recovery.
Context `{GoLib}.

(** The loop of [clean], after it went through the nodes [m] starting
    from the world [w]. *)
Lemma clean_loop now w (m : gmap string Node) :
  let r := map_fold (clean_visit now) w m in
  (∀ key, Nodes r !! key
          = match m !! key with
            | Some node => if kept (now key) node then Nodes w !! key else None
            | None => Nodes w !! key
            end) ∧
  hub r = hub w ∧ messager r = messager w ∧
  (chans w ≤ chans r)%nat ∧
  (∀ c, (c < chans w)%nat → tasks r !! c = tasks w !! c) ∧
  (∀ key node, m !! key = Some node → ExpireTime node ≠ PERMANENT →
     kept (now key) node = true →
     ∃ c, (chans w ≤ c < chans r)%nat ∧
          tasks r !! c = Some (mkTask key (ExpireTime node))).
Proof.
  apply (map_fold_weak_ind
    (λ r m,
      (∀ key, Nodes r !! key
              = match m !! key with
                | Some node => if kept (now key) node then Nodes w !! key else None
                | None => Nodes w !! key
                end) ∧
      hub r = hub w ∧ messager r = messager w ∧
      (chans w ≤ chans r)%nat ∧
      (∀ c, (c < chans w)%nat → tasks r !! c = tasks w !! c) ∧
      (∀ key node, m !! key = Some node → ExpireTime node ≠ PERMANENT →
         kept (now key) node = true →
         ∃ c, (chans w ≤ c < chans r)%nat ∧
              tasks r !! c = Some (mkTask key (ExpireTime node))))).
  - repeat split; done.
  - intros i x m' r Hi (Hn & Hh & Hs & Hc & Hold & Hnew).
    unfold clean_visit, kept in *.
    destruct (time.Equal (ExpireTime x) PERMANENT) eqn:He; simpl.
    + repeat split; try done.
      * intros key. rewrite Hn. destruct (decide (i = key)) as [->|Hne].
        -- rewrite lookup_insert_eq, Hi. by rewrite He.
        -- by rewrite lookup_insert_ne.
      * intros key node Hk Hv Hkept.
        destruct (decide (i = key)) as [->|Hne].
        -- rewrite lookup_insert_eq in Hk. injection Hk as <-.
           apply Equal_true in He. done.
        -- rewrite lookup_insert_ne in Hk by done. eauto.
    + destruct (time.Second <=? time.Sub (ExpireTime x) (now i)) eqn:Hs'; simpl.
      * repeat split; try done; try lia.
        -- intros key. rewrite Hn. destruct (decide (i = key)) as [->|Hne].
           ++ rewrite lookup_insert_eq, Hi. by rewrite He, Hs'.
           ++ by rewrite lookup_insert_ne.
        -- intros c Hlt. rewrite lookup_insert_ne by lia. by apply Hold.
        -- intros key node Hk Hv Hkept.
           destruct (decide (i = key)) as [->|Hne].
           ++ rewrite lookup_insert_eq in Hk. injection Hk as <-.
              exists (chans r). split; [lia|]. by rewrite lookup_insert_eq.
           ++ rewrite lookup_insert_ne in Hk by done.
              destruct (Hnew key node Hk Hv Hkept) as (c & Hc' & Ht).
              exists c. split; [lia|]. rewrite lookup_insert_ne by lia. done.
      * repeat split; try done.
        -- intros key. destruct (decide (i = key)) as [->|Hne].
           ++ rewrite lookup_delete_eq, lookup_insert_eq. by rewrite He, Hs'.
           ++ rewrite lookup_delete_ne, lookup_insert_ne by done. apply Hn.
        -- intros key node Hk Hv Hkept.
           destruct (decide (i = key)) as [->|Hne].
           ++ rewrite lookup_insert_eq in Hk. injection Hk as <-.
              rewrite He, Hs' in Hkept. done.
           ++ rewrite lookup_insert_ne in Hk by done. eauto.
Qed.

(** [clean] keeps or drops each node as it is: it never changes one. *)
Lemma clean_Nodes now w key :
  Nodes (clean now w) !! key
  = match Nodes w !! key with
    | Some node => if kept (now key) node then Some node else None
    | None => None
    end.
Proof.
  unfold clean. destruct (clean_loop now w (Nodes w)) as (Hn & _).
  rewrite Hn. destruct (Nodes w !! key) as [node|] eqn:Hk; [|done].
  by destruct (kept (now key) node).
Qed.

Lemma clean_hub now w : hub (clean now w) = hub w.
Proof. unfold clean. by destruct (clean_loop now w (Nodes w)) as (_ & ? & _). Qed.

Lemma clean_messager now w : messager (clean now w) = messager w.
Proof.
  unfold clean. by destruct (clean_loop now w (Nodes w)) as (_ & _ & ? & _).
Qed.

(** A goroutine is started, on a channel made by [clean], for every
    node with an expiration that [clean] keeps. *)
Lemma clean_tasks now w key node :
  Nodes w !! key = Some node → ExpireTime node ≠ PERMANENT →
  kept (now key) node = true →
  ∃ c, (chans w ≤ c < chans (clean now w))%nat ∧
       tasks (clean now w) !! c = Some (mkTask key (ExpireTime node)).
Proof.
  unfold clean.
  destruct (clean_loop now w (Nodes w)) as (_ & _ & _ & _ & _ & Hnew).
  apply Hnew.
Qed.

(** The decoder stores the members in order: the last member of a key
    decides, and a key of the map that the snapshot does not hold
    stays. *)
Lemma decode_into_lookup nodes members key :
  decode_into nodes members !! key
  = match (list_to_map (reverse members) : gmap string (string * Z)) !! key with
    | Some ve => Some (decoded ve)
    | None => nodes !! key
    end.
Proof.
  unfold decode_into. induction members as [|e l IH] using rev_ind.
  - simpl. by rewrite lookup_empty.
  - rewrite foldl_app, reverse_app. simpl.
    destruct (decide (e.1 = key)) as [<-|Hne].
    + by rewrite !lookup_insert_eq.
    + by rewrite !lookup_insert_ne.
Qed.

Lemma Recovery_error state now w :
  (Recovery state now w).1 = (Unmarshal state).2.
Proof. unfold Recovery. by destruct (Unmarshal state). Qed.

Lemma Recovery_Nodes state now w key :
  Nodes (Recovery state now w).2 !! key
  = match decode_into (if UnmarshalNull state then ∅ else Nodes w)
                      (Unmarshal state).1 !! key with
    | Some node => if kept (now key) node then Some node else None
    | None => None
    end.
Proof.
  unfold Recovery. destruct (Unmarshal state) as [members err]. simpl.
  by rewrite clean_Nodes.
Qed.
End Recovery.

(** ** Nodes and goroutines stay in step under Set, Delete and timers *)

Lemma timers_ok_frame w w' :
  Nodes w' = Nodes w → tasks w' = tasks w → chans w' = chans w →
  timers_ok w → timers_ok w'.
Proof. unfold timers_ok. intros -> -> ->. done. Qed.

(** The node at [key] gets the instant [e] and the channel [c], and the
    goroutine on [c] counts down to [e]. *)
Lemma timers_ok_arm w w' key value e c :
  timers_ok w →
  e ≠ PERMANENT →
  Nodes w' = <[key := mkNode value e (Some c)]> (Nodes w) →
  tasks w' = <[c := mkTask key e]> (tasks w) →
  (c < chans w')%nat → (chans w ≤ chans w')%nat →
  (∀ c' t, tasks w !! c' = Some t → (c' = c ↔ t_key t = key)) →
  timers_ok w'.
Proof.
  intros [Hn Ht] He Hn' Ht' Hc Hle Hfresh. split.
  - intros k node. rewrite Hn', Ht'.
    destruct (decide (key = k)) as [->|Hne].
    + rewrite lookup_insert_eq. intros [= <-] _. simpl.
      exists c. by rewrite lookup_insert_eq.
    + rewrite lookup_insert_ne by done. intros Hk Hv.
      destruct (Hn k node Hk Hv) as (c' & Hu & Hc').
      exists c'. split; [done|].
      rewrite lookup_insert_ne; [done|].
      intros <-. apply Hne. symmetry. by apply (Hfresh c _ Hc').
  - intros c' t. rewrite Hn', Ht'.
    destruct (decide (c = c')) as [->|Hne].
    + rewrite lookup_insert_eq. intros [= <-]. simpl. split; [done|].
      eexists. rewrite lookup_insert_eq. done.
    + rewrite lookup_insert_ne by done. intros Hc'.
      destruct (Ht c' t Hc') as (Hlt & node & Hk & Hu & Hx & Hp).
      split; [lia|]. exists node. rewrite lookup_insert_ne; [done|].
      intros Heq. apply Hne. symmetry. by apply (Hfresh c' t Hc').
Qed.

(** The node at [key] goes, or loses its expiration, and its goroutine if
    it had one returns. *)
Lemma timers_ok_disarm w w' key :
  timers_ok w →
  (∀ k, k ≠ key → Nodes w' !! k = Nodes w !! k) →
  (∀ node, Nodes w' !! key = Some node → ExpireTime node = PERMANENT) →
  match Nodes w !! key with
  | Some node =>
      if time.Equal (ExpireTime node) PERMANENT then tasks w' = tasks w
      else ∃ c, update node = Some c ∧ tasks w' = delete c (tasks w)
  | None => tasks w' = tasks w
  end →
  (chans w ≤ chans w')%nat →
  timers_ok w'.
Proof.
  intros [Hn Ht] Hother Hkey Htasks Hle.
  assert (Hsub : ∀ c t, tasks w' !! c = Some t →
                        tasks w !! c = Some t ∧ t_key t ≠ key).
  { intros c t Hc. destruct (Nodes w !! key) as [node|] eqn:Hk.
    - destruct (time.Equal (ExpireTime node) PERMANENT) eqn:He.
      + rewrite Htasks in Hc. split; [done|]. intros Heq.
        destruct (Ht c t Hc) as (_ & node' & Hk' & _ & Hx & Hp).
        rewrite Heq, Hk in Hk'. injection Hk' as <-.
        apply Equal_true in He. congruence.
      + destruct Htasks as (c0 & Hu & Htasks). rewrite Htasks in Hc.
        apply lookup_delete_Some in Hc as [Hne Hc]. split; [done|].
        intros Heq. destruct (Ht c t Hc) as (_ & node' & Hk' & Hu' & _).
        rewrite Heq, Hk in Hk'. injection Hk' as <-. congruence.
    - rewrite Htasks in Hc. split; [done|]. intros Heq.
      destruct (Ht c t Hc) as (_ & node' & Hk' & _). congruence. }
  split.
  - intros k node Hk Hv. destruct (decide (k = key)) as [->|Hne].
    { by destruct Hv; apply Hkey. }
    rewrite Hother in Hk by done.
    destruct (Hn k node Hk Hv) as (c & Hu & Hc). exists c. split; [done|].
    destruct (Nodes w !! key) as [node0|] eqn:Hk0; [|by rewrite Htasks].
    destruct (time.Equal (ExpireTime node0) PERMANENT) eqn:He;
      [by rewrite Htasks|].
    destruct Htasks as (c0 & Hu0 & ->). apply Equal_false in He.
    destruct (Hn key node0 Hk0 He) as (c1 & Hu1 & Hc1).
    rewrite lookup_delete_ne; [done|]. intros <-.
    assert (c1 = c0) as -> by congruence. rewrite Hc in Hc1.
    injection Hc1 as ->. done.
  - intros c t Hc. destruct (Hsub c t Hc) as [Hc0 Hne].
    destruct (Ht c t Hc0) as (Hlt & node & Hk & Hrest).
    split; [lia|]. exists node. by rewrite Hother.
Qed.

Lemma timers_ok_createStore : timers_ok createStore.
Proof. split; intros ? ? Hk; simpl in Hk; by rewrite lookup_empty in Hk. Qed.

Lemma timers_ok_SetMessager m w : timers_ok w → timers_ok (SetMessager m w).
Proof. by apply timers_ok_frame. Qed.

Section Invariant.
Context `{GoLib}.

Lemma timers_ok_Delete key index w :
  timers_ok w → timers_ok (world_of (Delete key index w)).
Proof.
  intros Hok. destruct (Nodes w !! Clean key) as [node|] eqn:Hk.
  - destruct (Delete_present key index w node Hk (timers_ok_listening _ _ Hok))
      as (w' & -> & Hn & _ & _ & Hc & Ht). simpl.
    apply (timers_ok_disarm w w' (Clean key) Hok).
    + intros k Hne. rewrite Hn. by rewrite lookup_delete_ne.
    + intros node'. rewrite Hn. by rewrite lookup_delete_eq.
    + rewrite Hk. destruct (time.Equal (ExpireTime node) PERMANENT) eqn:He.
      * by destruct (update node).
      * apply Equal_false in He. destruct Hok as [Hnodes _].
        destruct (Hnodes _ _ Hk He) as (c & Hu & _). rewrite Hu in Ht. eauto.
    + lia.
  - by rewrite Delete_absent.
Qed.

Lemma timers_ok_Set key value expireTime index now w :
  timers_ok w → timers_ok (world_of (Set_ key value expireTime index now w)).
Proof.
  intros Hok. unfold Set_.
  destruct (negb (time.Equal expireTime PERMANENT)
            && (time.Sub expireTime now <? 0)) eqn:Hg.
  { apply timers_ok_Delete, Hok. }
  destruct (time.Equal expireTime PERMANENT) eqn:Hp; simpl in *.
  - (* the node becomes permanent *)
    apply Equal_true in Hp.
    destruct (Nodes w !! Clean key) as [node|] eqn:Hk.
    + destruct (Marshal _) as [msg err].
      destruct (time.Equal (ExpireTime node) PERMANENT) eqn:He; simpl.
      * unfold bind, act, ret; simpl.
        eapply timers_ok_frame;
          [apply forward_Nodes|apply forward_tasks|apply forward_chans|].
        apply (timers_ok_disarm w _ (Clean key) Hok); simpl.
        -- intros k Hne. by rewrite lookup_insert_ne.
        -- intros node'. rewrite lookup_insert_eq. by intros [= <-].
        -- by rewrite Hk, He.
        -- lia.
      * apply Equal_false in He. pose proof Hok as [Hnodes _].
        destruct (Hnodes _ _ Hk He) as (c & Hu & Hc).
        unfold bind, send, expire_update. rewrite Hu, Hc.
        rewrite (proj2 (Equal_true expireTime PERMANENT) Hp). simpl.
        eapply timers_ok_frame;
          [apply forward_Nodes|apply forward_tasks|apply forward_chans|].
        apply (timers_ok_disarm w _ (Clean key) Hok); simpl.
        -- intros k Hne. by rewrite lookup_insert_ne.
        -- intros node'. rewrite lookup_insert_eq. by intros [= <-].
        -- rewrite Hk, (proj2 (Equal_false _ _) He). eauto.
        -- lia.
    + destruct (Marshal _) as [msg err]. unfold bind, act, ret; simpl.
      eapply timers_ok_frame;
        [apply forward_Nodes|apply forward_tasks|apply forward_chans|].
      apply (timers_ok_disarm w _ (Clean key) Hok); simpl.
      * intros k Hne. by rewrite lookup_insert_ne.
      * intros node'. rewrite lookup_insert_eq. by intros [= <-].
      * by rewrite Hk.
      * lia.
  - (* the node gets an expiration *)
    apply Equal_false in Hp. pose proof Hok as [Hnodes Htasks].
    destruct (Nodes w !! Clean key) as [node|] eqn:Hk.
    + destruct (Marshal _) as [msg err].
      destruct (time.Equal (ExpireTime node) PERMANENT) eqn:He; simpl.
      * apply Equal_true in He. unfold bind, act, ret; simpl.
        eapply timers_ok_frame;
          [apply forward_Nodes|apply forward_tasks|apply forward_chans|].
        apply (timers_ok_arm w _ (Clean key) value expireTime (chans w) Hok Hp);
          simpl; try done; try lia.
        intros c' t Hc'.
        destruct (Htasks c' t Hc') as (Hlt & node' & Hk' & _ & Hx & Hv).
        split; [lia|]. intros Heq. rewrite Heq, Hk in Hk'.
        injection Hk' as <-. congruence.
      * apply Equal_false in He. destruct (Hnodes _ _ Hk He) as (c & Hu & Hc).
        unfold bind, send, expire_update. rewrite Hu, Hc.
        rewrite (proj2 (Equal_false expireTime PERMANENT) Hp). simpl.
        eapply timers_ok_frame;
          [apply forward_Nodes|apply forward_tasks|apply forward_chans|].
        apply (timers_ok_arm w _ (Clean key) value expireTime c Hok Hp);
          simpl; try done.
        -- by destruct (Htasks c _ Hc).
        -- intros c' t Hc'. split.
           ++ intros ->. rewrite Hc in Hc'. by injection Hc' as <-.
           ++ intros Heq.
              destruct (Htasks c' t Hc') as (_ & node' & Hk' & Hu' & _).
              rewrite Heq, Hk in Hk'. injection Hk' as <-. congruence.
    + destruct (Marshal _) as [msg err]. unfold bind, act, ret; simpl.
      eapply timers_ok_frame;
        [apply forward_Nodes|apply forward_tasks|apply forward_chans|].
      apply (timers_ok_arm w _ (Clean key) value expireTime (chans w) Hok Hp);
        simpl; try done; try lia.
      intros c' t Hc'.
      destruct (Htasks c' t Hc') as (Hlt & node' & Hk' & _).
      split; [lia|]. intros Heq. rewrite Heq, Hk in Hk'. done.
Qed.

Lemma timers_ok_expire_timeout c w :
  timers_ok w → timers_ok (expire_timeout c w).
Proof.
  intros Hok. destruct (tasks w !! c) as [t|] eqn:Hc.
  2: { unfold expire_timeout. by rewrite Hc. }
  pose proof Hok as [Hnodes Htasks].
  destruct (Htasks c t Hc) as (Hlt & node & Hk & Hu & Hx & Hv).
  destruct (expire_timeout_present c t node w Hc Hk) as (Hn & _ & _ & Ht & Hch).
  apply (timers_ok_disarm w _ (t_key t) Hok).
  - intros k Hne. rewrite Hn. by rewrite lookup_delete_ne.
  - intros node'. rewrite Hn. by rewrite lookup_delete_eq.
  - rewrite Hk. rewrite (proj2 (Equal_false (ExpireTime node) PERMANENT));
      [eauto | congruence].
  - lia.
Qed.

(** While nodes and goroutines agree, no call parks. *)
Lemma Delete_returns key index w :
  timers_ok w → ∃ r w', Delete key index w = Done r w'.
Proof.
  intros Hok. destruct (Nodes w !! Clean key) as [node|] eqn:Hk.
  - destruct (Delete_present key index w node Hk (timers_ok_listening _ _ Hok))
      as (w' & -> & _). eauto.
  - rewrite Delete_absent by done. eauto.
Qed.

Lemma Set_returns key value expireTime index now w :
  timers_ok w → ∃ r w', Set_ key value expireTime index now w = Done r w'.
Proof.
  intros Hok.
  destruct (negb (time.Equal expireTime PERMANENT)
            && (time.Sub expireTime now <? 0)) eqn:Hg.
  - unfold Set_. rewrite Hg. by apply Delete_returns.
  - apply Set_guard_false in Hg.
    destruct (Set_stores key value expireTime index now w Hg
                (timers_ok_listening _ _ Hok)) as (upd & w' & -> & _). eauto.
Qed.

Lemma timers_ok_Get key w : timers_ok w → timers_ok (world_of (Get key w)).
Proof. by rewrite Get_returns. Qed.

(** Whatever calls were made and whatever timers elapsed since the store
    was created, nodes and goroutines agree. *)
Lemma reachable_timers_ok w : reachable w → timers_ok w.
Proof.
  unfold reachable. revert w. apply rtc_ind_r.
  - apply timers_ok_createStore.
  - intros w w' _ Hstep Hok.
    destruct Hstep; auto using timers_ok_Set, timers_ok_Delete, timers_ok_Get,
      timers_ok_SetMessager, timers_ok_expire_timeout.
Qed.
End Invariant.

(** What the agreement says key by key: no goroutine for a key that is
    absent or permanent, and for a key with an expiration one goroutine,
    on the node's channel, counting down to the node's instant. *)
Lemma timers_ok_one_task w key :
  timers_ok w →
  match Nodes w !! key with
  | Some node =>
      if time.Equal (ExpireTime node) PERMANENT
      then ∀ c t, tasks w !! c = Some t → t_key t ≠ key
      else ∃ c, update node = Some c ∧
                tasks w !! c = Some (mkTask key (ExpireTime node)) ∧
                ∀ c' t, tasks w !! c' = Some t → t_key t = key → c' = c
  | None => ∀ c t, tasks w !! c = Some t → t_key t ≠ key
  end.
Proof.
  intros [Hn Ht]. destruct (Nodes w !! key) as [node|] eqn:Hk.
  - destruct (time.Equal (ExpireTime node) PERMANENT) eqn:He.
    + apply Equal_true in He. intros c t Hc Heq.
      destruct (Ht c t Hc) as (_ & node' & Hk' & _ & Hx & Hv).
      rewrite Heq, Hk in Hk'. injection Hk' as <-. congruence.
    + apply Equal_false in He. destruct (Hn key node Hk He) as (c & Hu & Hc).
      exists c. repeat split; try done. intros c' t Hc' Heq.
      destruct (Ht c' t Hc') as (_ & node' & Hk' & Hu' & _).
      rewrite Heq, Hk in Hk'. injection Hk' as <-. congruence.
  - intros c t Hc Heq. destruct (Ht c t Hc) as (_ & node' & Hk' & _).
    congruence.
Qed.

(** [clean] keeps the permanent nodes and those whose expiration is at
    least a second after the clock reading. *)
Lemma kept_iff now node :
  kept now node = true
  ↔ ExpireTime node = PERMANENT ∨ now + 1000000000 ≤ ExpireTime node.
Proof.
  unfold kept. by rewrite orb_true_iff, Equal_true, Sub_Second.
Qed.

(** * The claims *)

Section Claims.
Context `{GoLib}.

(** X18: where the node of the key, if it has an expiration, holds a
    channel that a live goroutine receives on, [Set] with an expiration
    that is not the sentinel and is already past does exactly what
    [Delete] of that key with the same index does: it is the call of
    [Delete] on the cleaned key, which, cleaning being idempotent at the
    key, is [Delete] of the key.  The result is the DELETE envelope, with
    exist=true and the old value when the key was there and exist=false
    when it was not, and the map afterwards is the map before without
    the key: no node is inserted. *)
Theorem Set_expired_is_Delete key value expireTime index now w :
  expireTime ≠ PERMANENT → expireTime < now →
  Clean (Clean key) = Clean key →
  listening w (Clean key) →
  Set_ key value expireTime index now w = Delete (Clean key) index w ∧
  Set_ key value expireTime index now w = Delete key index w ∧
  ∃ w', Set_ key value expireTime index now w
        = Done (Marshal
                  match Nodes w !! Clean key with
                  | Some node => mkResponse DELETE (Clean key) (Value node) ""
                                            true (ExpireTime node) index
                  | None => mkResponse DELETE (Clean key) "" "" false
                                       PERMANENT index
                  end) w' ∧
        Nodes w' = delete (Clean key) (Nodes w).
Proof.
  intros He Hn Hidem Hl.
  assert (Heq : Set_ key value expireTime index now w = Delete key index w).
  { rewrite Set_past by done. unfold Delete. by rewrite Hidem. }
  split; [by apply Set_past|]. split; [done|]. rewrite Heq.
  destruct (Nodes w !! Clean key) as [node|] eqn:Hk.
  - destruct (Delete_present key index w node Hk Hl) as (w' & Hd & Hnodes & _).
    eauto.
  - exists w. split; [by apply Delete_absent|].
    symmetry. by apply delete_id.
Qed.

(** C7: [Get] returns, in the world it was called in (the map, the watch
    hook and the messager are as before), a GET envelope with index 0
    for the cleaned key: exist=false, empty values and the sentinel when
    the key is absent, exist=true with the node's value and expiration
    when it is present. *)
Theorem Get_reads_only key w :
  ∃ resp, Get key w = Done resp w ∧
          Action resp = GET ∧ Key resp = Clean key ∧ Index resp = 0%N ∧
          match Nodes w !! Clean key with
          | None => Exist resp = false ∧ OldValue resp = "" ∧
                    NewValue resp = "" ∧ Expiration resp = PERMANENT
          | Some node => Exist resp = true ∧ NewValue resp = Value node ∧
                         Expiration resp = ExpireTime node
          end.
Proof.
  eexists. split; [apply Get_returns|].
  by destruct (Nodes w !! Clean key).
Qed.

(** C10: for a key that is present, the GET envelope carries the node's
    current value both as old value and as new value. *)
Theorem Get_old_value_is_current key w node :
  Nodes w !! Clean key = Some node →
  ∃ resp, Get key w = Done resp w ∧
          OldValue resp = Value node ∧ NewValue resp = Value node.
Proof.
  intros Hk. eexists. split; [apply Get_returns|]. by rewrite Hk.
Qed.

(** C8: when the envelope does not encode, [Set] and [Delete] return the
    encoder's error and the map keeps what the call did to it: the node
    that [Set] stored is there, the key that [Delete] (or a [Set] with a
    past expiration) removed is gone. *)
Theorem encoding_error_keeps_mutation :
  (∀ key value expireTime index now w e,
     expireTime = PERMANENT ∨ now ≤ expireTime →
     listening w (Clean key) →
     (Marshal match Nodes w !! Clean key with
              | Some node => mkResponse SET (Clean key) (Value node) value
                                        true expireTime index
              | None => mkResponse SET (Clean key) "" value false
                                   expireTime index
              end).2 = Some e →
     ∃ msg upd w',
       Set_ key value expireTime index now w = Done (msg, Some e) w' ∧
       Nodes w' !! Clean key = Some (mkNode value expireTime upd)) ∧
  (∀ key index w node e,
     Nodes w !! Clean key = Some node →
     listening w (Clean key) →
     (Marshal (mkResponse DELETE (Clean key) (Value node) "" true
                          (ExpireTime node) index)).2 = Some e →
     ∃ msg w',
       Delete key index w = Done (msg, Some e) w' ∧
       Nodes w' !! Clean key = None) ∧
  (∀ key value expireTime index now w node e,
     expireTime ≠ PERMANENT → expireTime < now →
     Clean (Clean key) = Clean key →
     Nodes w !! Clean key = Some node →
     listening w (Clean key) →
     (Marshal (mkResponse DELETE (Clean key) (Value node) "" true
                          (ExpireTime node) index)).2 = Some e →
     ∃ msg w',
       Set_ key value expireTime index now w = Done (msg, Some e) w' ∧
       Nodes w' !! Clean key = None).
Proof.
  assert (HDel : ∀ key index w node e,
     Nodes w !! Clean key = Some node →
     listening w (Clean key) →
     (Marshal (mkResponse DELETE (Clean key) (Value node) "" true
                          (ExpireTime node) index)).2 = Some e →
     ∃ msg w',
       Delete key index w = Done (msg, Some e) w' ∧
       Nodes w' !! Clean key = None).
  { intros key index w node e Hk Hl Hm.
    destruct (Delete_present key index w node Hk Hl) as (w' & Hd & Hn & _).
    destruct (Marshal _) as [msg err]. simpl in Hm. subst err.
    exists msg, w'. split; [done|]. rewrite Hn. apply lookup_delete_eq. }
  split; [|split; [exact HDel|]].
  - intros key value expireTime index now w e Hg Hl Hm.
    destruct (Set_stores key value expireTime index now w Hg Hl)
      as (upd & w' & Hs & Hn & _).
    destruct (Marshal _) as [msg err]. simpl in Hm. subst err.
    exists msg, upd, w'. split; [done|]. rewrite Hn. apply lookup_insert_eq.
  - intros key value expireTime index now w node e He Hn Hidem Hk Hl Hm.
    rewrite Set_past by done.
    replace (Delete (Clean key) index w) with (Delete key index w)
      by (unfold Delete; by rewrite Hidem).
    by apply (HDel key index w node e).
Qed.
End Claims.

Section Envelopes.
Context `{GoLib}.

(** C5, as the code has it: the expiration of the envelope is, for a
    [Set] that stores, the expiration of the node after the call (the
    sentinel when it is permanent); for [Get], the node's expiration, or
    the sentinel when the key is absent; for [Delete] of an absent key,
    the sentinel; for [Delete] of a present key and for a timer that
    elapses, the expiration that the removed node had before the
    call. *)
Theorem envelope_expiration :
  (∀ key value expireTime index now w,
     expireTime = PERMANENT ∨ now ≤ expireTime →
     listening w (Clean key) →
     ∃ resp w',
       Set_ key value expireTime index now w = Done (Marshal resp) w' ∧
       hub w' = hub w ++ [resp] ∧ Action resp = SET ∧
       Expiration resp = expireTime ∧
       Expiration resp = expiration_at w' (Clean key)) ∧
  (∀ key w,
     ∃ resp, Get key w = Done resp w ∧
             Expiration resp = expiration_at w (Clean key)) ∧
  (∀ key index w,
     Nodes w !! Clean key = None →
     ∃ resp, Delete key index w = Done (Marshal resp) w ∧
             Action resp = DELETE ∧ Expiration resp = PERMANENT) ∧
  (∀ key index w node,
     Nodes w !! Clean key = Some node →
     listening w (Clean key) →
     ∃ resp w',
       Delete key index w = Done (Marshal resp) w' ∧
       hub w' = hub w ++ [resp] ∧ Action resp = DELETE ∧
       Nodes w' !! Clean key = None ∧
       Expiration resp = ExpireTime node) ∧
  (∀ c t node w,
     tasks w !! c = Some t →
     Nodes w !! t_key t = Some node →
     ∃ resp,
       hub (expire_timeout c w) = hub w ++ [resp] ∧ Action resp = DELETE ∧
       Nodes (expire_timeout c w) !! t_key t = None ∧
       Expiration resp = ExpireTime node).
Proof.
  repeat split.
  - intros key value expireTime index now w Hg Hl.
    destruct (Set_stores key value expireTime index now w Hg Hl)
      as (upd & w' & Hs & Hn & Hh & _).
    eexists _, w'. split; [exact Hs|]. split; [exact Hh|].
    unfold expiration_at. rewrite Hn, lookup_insert_eq.
    by destruct (Nodes w !! Clean key).
  - intros key w. eexists. split; [apply Get_returns|].
    unfold expiration_at. by destruct (Nodes w !! Clean key).
  - intros key index w Hk. eexists. split; [by apply Delete_absent|]. done.
  - intros key index w node Hk Hl.
    destruct (Delete_present key index w node Hk Hl)
      as (w' & Hd & Hn & Hh & _).
    eexists _, w'. split; [exact Hd|]. split; [exact Hh|].
    rewrite Hn, lookup_delete_eq. done.
  - intros c t node w Hc Hk.
    destruct (expire_timeout_present c t node w Hc Hk) as (Hn & Hh & _).
    eexists. split; [exact Hh|]. rewrite Hn, lookup_delete_eq. done.
Qed.

(** C6, as the code has it: a [Set] that stores and a [Delete] of a
    present key, where the node of the key, if it has an expiration,
    holds a channel that a live goroutine receives on, and a timer that
    elapses on a present key, each call the watch hook once, with the
    envelope, and hand the encoded envelope to the messager once when
    one is registered and the envelope encoded; with no messager the
    step is skipped and nothing else changes.  A [Delete] of an absent
    key returns its envelope and calls neither the hook nor the
    messager. *)
Theorem notify_and_forward_once :
  (∀ key value expireTime index now w,
     expireTime = PERMANENT ∨ now ≤ expireTime →
     listening w (Clean key) →
     ∃ resp w',
       Set_ key value expireTime index now w = Done (Marshal resp) w' ∧
       Action resp = SET ∧
       hub w' = hub w ++ [resp] ∧
       messager w' = forwarded (messager w) (Marshal resp)) ∧
  (∀ key index w node,
     Nodes w !! Clean key = Some node →
     listening w (Clean key) →
     ∃ resp w',
       Delete key index w = Done (Marshal resp) w' ∧
       Action resp = DELETE ∧
       hub w' = hub w ++ [resp] ∧
       messager w' = forwarded (messager w) (Marshal resp)) ∧
  (∀ c t node w,
     tasks w !! c = Some t →
     Nodes w !! t_key t = Some node →
     ∃ resp,
       Action resp = DELETE ∧
       hub (expire_timeout c w) = hub w ++ [resp] ∧
       messager (expire_timeout c w) = forwarded (messager w) (Marshal resp)) ∧
  (∀ key index w,
     Nodes w !! Clean key = None →
     ∃ resp, Action resp = DELETE ∧
             Delete key index w = Done (Marshal resp) w) ∧
  (∀ r, forwarded None r = None) ∧
  (∀ sent msg,
     forwarded (Some sent) (msg, None)
     = Some (sent ++ [String.string_of_list_byte msg])).
Proof.
  repeat split.
  - intros key value expireTime index now w Hg Hl.
    destruct (Set_stores key value expireTime index now w Hg Hl)
      as (upd & w' & Hs & _ & Hh & Hm).
    eexists _, w'. split; [exact Hs|].
    split; [by destruct (Nodes w !! Clean key)|]. done.
  - intros key index w node Hk Hl.
    destruct (Delete_present key index w node Hk Hl)
      as (w' & Hd & _ & Hh & Hm & _).
    eexists _, w'. done.
  - intros c t node w Hc Hk.
    destruct (expire_timeout_present c t node w Hc Hk) as (_ & Hh & Hm & _).
    eexists. split; [|split; [exact Hh|exact Hm]]. done.
  - intros key index w Hk. eexists. split; [|by apply Delete_absent]. done.
Qed.
End Envelopes.

Section Snapshots.
Context `{GoLib}.

(** C2, as the code has it: when the codec reads back what it wrote for
    the map, [Save] and then [Recovery] of the bytes on an empty store
    gives, with no error, the nodes of the saved map with their values
    and expirations, without those of its nodes that have an expiration
    less than one second after the instant [clean] read the clock at.
    A node whose expiration has passed is among the dropped ones, and
    so is one that has up to a second left. *)
Theorem Save_Recovery_round_trip w w0 now state :
  round_trips (snapshot (Nodes w)) →
  Save w = (state, None) →
  Nodes w0 = ∅ →
  (Recovery state now w0).1 = None ∧
  ∀ key,
    Nodes (Recovery state now w0).2 !! key
    = match Nodes w !! key with
      | Some node =>
          if kept (now key) node
          then Some (mkNode (Value node) (ExpireTime node) None)
          else None
      | None => None
      end.
Proof.
  intros Hrt Hsave Hempty.
  assert (Hms : MarshalStore (snapshot (Nodes w)) = (state, None)).
  { unfold Save in Hsave. destruct (MarshalStore _) as [b [e|]]; congruence. }
  destruct (Hrt state Hms) as (members & Hu & Hperm).
  split; [by rewrite Recovery_error, Hu|].
  intros key. rewrite Recovery_Nodes, decode_into_lookup, Hu, Hempty. simpl.
  assert (Hmap : (list_to_map (reverse members) : gmap string (string * Z))
                 = snapshot (Nodes w)).
  { symmetry. apply list_to_map_flip. by rewrite reverse_Permutation. }
  rewrite Hmap. unfold snapshot. rewrite lookup_fmap.
  replace ((if UnmarshalNull state then ∅ else ∅ : gmap string Node) !! key)
    with (@None Node) by (destruct (UnmarshalNull state); by rewrite lookup_empty).
  by destruct (Nodes w !! key).
Qed.

(** C3, as the code has it: [Recovery] stores the members of the
    snapshot into the map that is there, which the decoder has emptied
    first when it met null for the snapshot's nodes, and then cleans: a
    key of the snapshot gets the snapshot's node, a key that only the map
    before had keeps its node when the decoder did not empty the map, and
    [clean] then drops the nodes that have an expiration less than a
    second away.  So when the decoder did not empty the map a key that
    only the map before had survives unless [clean] drops it, and when
    the map before was empty or the decoder emptied it the keys
    afterwards are decided by the snapshot and [clean] alone. *)
Theorem Recovery_overlays_snapshot state now w key :
  let members : gmap string (string * Z) :=
    list_to_map (reverse (Unmarshal state).1) in
  let w' := (Recovery state now w).2 in
  Nodes w' !! key
  = match (match members !! key with
           | Some ve => Some (decoded ve)
           | None => if UnmarshalNull state then None else Nodes w !! key
           end) with
    | Some node => if kept (now key) node then Some node else None
    | None => None
    end ∧
  (∀ node, UnmarshalNull state = false →
           members !! key = None → Nodes w !! key = Some node →
           kept (now key) node = true → Nodes w' !! key = Some node) ∧
  (Nodes w = ∅ ∨ UnmarshalNull state = true →
   Nodes w' !! key
   = match members !! key with
     | Some ve => if kept (now key) (decoded ve) then Some (decoded ve) else None
     | None => None
     end).
Proof.
  intros members w'.
  assert (Hgen : Nodes w' !! key
    = match (match members !! key with
             | Some ve => Some (decoded ve)
             | None => if UnmarshalNull state then None else Nodes w !! key
             end) with
      | Some node => if kept (now key) node then Some node else None
      | None => None
      end).
  { subst w' members. rewrite Recovery_Nodes, decode_into_lookup.
    destruct (list_to_map _ !! key); [done|].
    destruct (UnmarshalNull state); [by rewrite lookup_empty|done]. }
  split; [exact Hgen|]. split.
  - intros node Hnull Hm Hk Hkept. rewrite Hgen, Hm, Hnull, Hk, Hkept. done.
  - intros Hempty. rewrite Hgen. destruct (members !! key); [done|].
    destruct Hempty as [Hempty| ->]; [|done].
    rewrite Hempty, lookup_empty. by destruct (UnmarshalNull state).
Qed.

(** What [Recovery] leaves for a key of the snapshot that has an
    expiration at least a second away: the node as decoded, with the nil
    channel, and a goroutine for the key on a channel of its own, so
    that [Delete] and [Set] of the key park on the send to the nil
    channel. *)
Lemma Recovery_nil_channel state now w key ve :
  (list_to_map (reverse (Unmarshal state).1) : gmap string (string * Z)) !! key
    = Some ve →
  ve.2 ≠ PERMANENT →
  time.Second ≤ time.Sub ve.2 (now key) →
  let w' := (Recovery state now w).2 in
  Nodes w' !! key = Some (mkNode ve.1 ve.2 None) ∧
  (∃ c, tasks w' !! c = Some (mkTask key ve.2)) ∧
  (∀ k index, Clean k = key → Delete k index w' = Blocked w') ∧
  (∀ k value expireTime index t, Clean k = key →
     expireTime = PERMANENT ∨ t ≤ expireTime →
     Set_ k value expireTime index t w' = Blocked w').
Proof.
  intros Hm Hv Hs w'.
  assert (Hkept : kept (now key) (decoded ve) = true).
  { unfold kept, decoded. simpl. apply orb_true_iff. right. by apply Z.leb_le. }
  assert (Hk : Nodes w' !! key = Some (decoded ve)).
  { subst w'. by rewrite Recovery_Nodes, decode_into_lookup, Hm, Hkept. }
  assert (He : time.Equal (ExpireTime (decoded ve)) PERMANENT = false)
    by by apply Equal_false.
  split; [exact Hk|]. split; [|split].
  - subst w'. unfold Recovery. destruct (Unmarshal state) as [members err].
    simpl in *.
    destruct (clean_tasks now
                (mkWorld (decode_into (if UnmarshalNull state then ∅ else Nodes w)
                                      members)
                         (messager w) (hub w) (tasks w) (chans w))
                key (decoded ve))
      as (c & _ & Hc); simpl; try done.
    + by rewrite decode_into_lookup, Hm.
    + eauto.
  - intros k index <-. unfold Delete. rewrite Hk, He. done.
  - intros k value expireTime index t <- Hg. unfold Set_.
    rewrite (proj2 (Set_guard_false expireTime t) Hg), Hk, He. done.
Qed.
End Snapshots.

(** * The claims on examples *)

Section Examples.
Import Demo.

Lemma listening_w_t key : listening Ex.w_t key.
Proof.
  apply timers_ok_listening, timers_ok_Set, timers_ok_SetMessager,
    timers_ok_createStore.
Defined.

Lemma listening_w_far key : listening Ex.w_far key.
Proof. apply timers_ok_listening, timers_ok_Set, timers_ok_createStore. Defined.

Lemma listening_createStore key : listening createStore key.
Proof. apply timers_ok_listening, timers_ok_createStore. Defined.

(** X18 on an example: at 3s, setting /x/../t to expire at 2s in the
    store that holds /t. *)
Lemma Set_expired_is_Delete_witness :
  Set_ "/x/../t" "late" 2000000000 9 3000000000 Ex.w_t
  = Delete "/t" 9 Ex.w_t ∧
  Set_ "/x/../t" "late" 2000000000 9 3000000000 Ex.w_t
  = Delete "/x/../t" 9 Ex.w_t ∧
  ∃ w', Set_ "/x/../t" "late" 2000000000 9 3000000000 Ex.w_t
        = Done (Marshal (mkResponse DELETE "/t" "v" "" true 5000000000 9)) w' ∧
        Nodes w' = delete "/t" (Nodes Ex.w_t).
Proof.
  assert (Hv : 2000000000 ≠ PERMANENT) by discriminate.
  assert (Hpast : 2000000000 < 3000000000) by reflexivity.
  assert (Hidem : Clean (Clean "/x/../t") = Clean "/x/../t")
    by (vm_compute; reflexivity).
  exact (Set_expired_is_Delete "/x/../t" "late" 2000000000 9 3000000000
           Ex.w_t Hv Hpast Hidem (listening_w_t _)).
Defined.

(** C1, where the code departs from it: /t was recovered from a snapshot
    at 2s, so that its node has the nil channel ([clean] set the channel
    it made in its copy of the node only).  At 3s /t is set to expire at
    2.5s, which is past: [Set] calls [Delete], which parks on the send
    to the nil channel.  No DELETE envelope is returned, the watch hook
    is not called, and /t stays in the map. *)
Theorem Set_expired_parks_on_recovered_key :
  Nodes Ex.w_rec !! "/t" = Some (mkNode "v" 5000000000 None) ∧
  2500000000 ≠ PERMANENT ∧ 2500000000 < 3000000000 ∧
  Set_ "/t" "late" 2500000000 9 3000000000 Ex.w_rec = Delete "/t" 9 Ex.w_rec ∧
  Set_ "/t" "late" 2500000000 9 3000000000 Ex.w_rec = Blocked Ex.w_rec ∧
  hub Ex.w_rec = [].
Proof.
  repeat split; try (vm_compute; reflexivity). vm_compute. discriminate.
Qed.

(** C10 on an example: reading the permanent key /a. *)
Lemma Get_old_value_is_current_witness :
  ∃ resp, Get "/a" Ex.w_a = Done resp Ex.w_a ∧
          OldValue resp = "1" ∧ NewValue resp = "1".
Proof.
  assert (Hk : Nodes Ex.w_a !! Clean "/a" = Some (mkNode "1" PERMANENT (Some 0%nat)))
    by (vm_compute; reflexivity).
  exact (Get_old_value_is_current "/a" Ex.w_a _ Hk).
Defined.
(** C8 on examples: an expiration in year 10000 does not encode.  The
    [Set] that stores it returns the error and the node is in the map;
    the [Delete] of that node, and a [Set] of it with a past expiration,
    return the error and the key is gone. *)
Lemma encoding_error_keeps_mutation_witness :
  (∃ msg upd w',
     Set_ "/far" "v" Ex.far 1 1000000000 createStore
     = Done (msg, Some Ex.year_error) w' ∧
     Nodes w' !! "/far" = Some (mkNode "v" Ex.far upd)) ∧
  (∃ msg w',
     Delete "/far" 2 Ex.w_far = Done (msg, Some Ex.year_error) w' ∧
     Nodes w' !! "/far" = None) ∧
  (∃ msg w',
     Set_ "/far" "x" 1000000000 3 2000000000 Ex.w_far
     = Done (msg, Some Ex.year_error) w' ∧
     Nodes w' !! "/far" = None).
Proof.
  assert (Hg : Ex.far = PERMANENT ∨ 1000000000 ≤ Ex.far)
    by (right; discriminate).
  assert (Hk : Nodes Ex.w_far !! Clean "/far"
               = Some (mkNode "v" Ex.far (Some 0%nat)))
    by (vm_compute; reflexivity).
  assert (Hv : 1000000000 ≠ PERMANENT) by discriminate.
  assert (Hpast : 1000000000 < 2000000000) by reflexivity.
  assert (Hidem : Clean (Clean "/far") = Clean "/far")
    by (vm_compute; reflexivity).
  assert (Hm1 : (Marshal match Nodes createStore !! Clean "/far" with
                         | Some node => mkResponse SET (Clean "/far") (Value node)
                                                   "v" true Ex.far 1
                         | None => mkResponse SET (Clean "/far") "" "v" false
                                              Ex.far 1
                         end).2 = Some Ex.year_error)
    by (vm_compute; reflexivity).
  assert (Hm2 : ∀ index,
            (Marshal (mkResponse DELETE (Clean "/far")
                        (Value (mkNode "v" Ex.far (Some 0%nat))) "" true
                        (ExpireTime (mkNode "v" Ex.far (Some 0%nat))) index)).2
            = Some Ex.year_error)
    by (intros index; reflexivity).
  split; [|split].
  - exact (proj1 encoding_error_keeps_mutation "/far" "v" Ex.far 1%N
             1000000000 createStore Ex.year_error Hg
             (listening_createStore _) Hm1).
  - exact (proj1 (proj2 encoding_error_keeps_mutation) "/far" 2%N Ex.w_far _
             Ex.year_error Hk (listening_w_far _) (Hm2 _)).
  - exact (proj2 (proj2 encoding_error_keeps_mutation) "/far" "x" 1000000000
             3%N 2000000000 Ex.w_far _ Ex.year_error Hv Hpast Hidem Hk
             (listening_w_far _) (Hm2 _)).
Defined.
(** C5 fails on the code: deleting /t, which expires at 5s, gives a
    DELETE envelope whose expiration is 5s, while the key is absent
    afterwards and the sentinel is what the claim asks for. *)
Lemma Delete_envelope_expiration_counterexample :
  ∃ resp,
    Delete "/t" 7 Ex.w_t
    = Done (Marshal resp) (world_of (Delete "/t" 7 Ex.w_t)) ∧
    hub (world_of (Delete "/t" 7 Ex.w_t)) = hub Ex.w_t ++ [resp] ∧
    Action resp = DELETE ∧
    Nodes (world_of (Delete "/t" 7 Ex.w_t)) !! "/t" = None ∧
    Expiration resp = 5000000000 ∧
    Expiration resp ≠ expiration_at (world_of (Delete "/t" 7 Ex.w_t)) "/t" ∧
    Expiration resp ≠ PERMANENT.
Proof.
  exists (mkResponse DELETE "/t" "v" "" true 5000000000 7).
  repeat split; try (vm_compute; reflexivity); vm_compute; discriminate.
Qed.

(** C5 as amended, on examples: a [Set] of /t to 9s, the [Delete] of /t,
    and the timer of /t. *)
Lemma envelope_expiration_witness :
  (∃ resp w',
     Set_ "/t" "v2" 9000000000 6 2000000000 Ex.w_t = Done (Marshal resp) w' ∧
     hub w' = hub Ex.w_t ++ [resp] ∧ Action resp = SET ∧
     Expiration resp = 9000000000 ∧
     Expiration resp = expiration_at w' "/t") ∧
  (∃ resp w',
     Delete "/t" 7 Ex.w_t = Done (Marshal resp) w' ∧
     hub w' = hub Ex.w_t ++ [resp] ∧ Action resp = DELETE ∧
     Nodes w' !! "/t" = None ∧
     Expiration resp = 5000000000) ∧
  (∃ resp,
     hub (expire_timeout 0%nat Ex.w_t) = hub Ex.w_t ++ [resp] ∧
     Action resp = DELETE ∧
     Nodes (expire_timeout 0%nat Ex.w_t) !! "/t" = None ∧
     Expiration resp = 5000000000).
Proof.
  assert (Hg : 9000000000 = PERMANENT ∨ 2000000000 ≤ 9000000000)
    by (right; discriminate).
  assert (Hk : Nodes Ex.w_t !! Clean "/t"
               = Some (mkNode "v" 5000000000 (Some 0%nat)))
    by (vm_compute; reflexivity).
  assert (Hc : tasks Ex.w_t !! 0%nat = Some (mkTask "/t" 5000000000))
    by (vm_compute; reflexivity).
  split; [|split].
  - exact (proj1 envelope_expiration "/t" "v2" 9000000000 6%N 2000000000
             Ex.w_t Hg (listening_w_t _)).
  - exact (proj1 (proj2 (proj2 (proj2 envelope_expiration))) "/t" 7%N Ex.w_t
             _ Hk (listening_w_t _)).
  - exact (proj2 (proj2 (proj2 (proj2 envelope_expiration))) 0%nat _ _ Ex.w_t
             Hc Hk).
Defined.

(** C6 fails on the code: deleting a key that is absent, in a store with
    a messager, returns the encoded envelope and leaves the world as it
    was: the watch hook was not called and nothing went to the
    messager. *)
Lemma Delete_absent_is_silent_counterexample :
  ∃ msg,
    Delete "/a" 1 Ex.w_sink = Done (msg, None) Ex.w_sink ∧
    messager Ex.w_sink = Some [] ∧
    ¬ (∃ resp, hub Ex.w_sink = hub Ex.w_sink ++ [resp]).
Proof.
  eexists. split; [vm_compute; reflexivity|]. split; [reflexivity|].
  intros [resp Hresp]. vm_compute in Hresp. discriminate.
Qed.

(** C6 as amended, on examples in the store with a messager that holds
    /t, and in the empty store with a messager. *)
Lemma notify_and_forward_once_witness :
  (∃ resp w',
     Set_ "/t" "v2" 9000000000 6 2000000000 Ex.w_t = Done (Marshal resp) w' ∧
     Action resp = SET ∧
     hub w' = hub Ex.w_t ++ [resp] ∧
     messager w' = forwarded (messager Ex.w_t) (Marshal resp)) ∧
  (∃ resp w',
     Delete "/t" 7 Ex.w_t = Done (Marshal resp) w' ∧
     Action resp = DELETE ∧
     hub w' = hub Ex.w_t ++ [resp] ∧
     messager w' = forwarded (messager Ex.w_t) (Marshal resp)) ∧
  (∃ resp,
     Action resp = DELETE ∧
     hub (expire_timeout 0%nat Ex.w_t) = hub Ex.w_t ++ [resp] ∧
     messager (expire_timeout 0%nat Ex.w_t)
     = forwarded (messager Ex.w_t) (Marshal resp)) ∧
  (∃ resp, Action resp = DELETE ∧
           Delete "/a" 1 Ex.w_sink = Done (Marshal resp) Ex.w_sink).
Proof.
  assert (Hg : 9000000000 = PERMANENT ∨ 2000000000 ≤ 9000000000)
    by (right; discriminate).
  assert (Hk : Nodes Ex.w_t !! Clean "/t"
               = Some (mkNode "v" 5000000000 (Some 0%nat)))
    by (vm_compute; reflexivity).
  assert (Hc : tasks Ex.w_t !! 0%nat = Some (mkTask "/t" 5000000000))
    by (vm_compute; reflexivity).
  assert (Ha : Nodes Ex.w_sink !! Clean "/a" = None)
    by (vm_compute; reflexivity).
  split; [|split; [|split]].
  - exact (proj1 notify_and_forward_once "/t" "v2" 9000000000 6%N 2000000000
             Ex.w_t Hg (listening_w_t _)).
  - exact (proj1 (proj2 notify_and_forward_once) "/t" 7%N Ex.w_t _ Hk
             (listening_w_t _)).
  - exact (proj1 (proj2 (proj2 notify_and_forward_once)) 0%nat _ _ Ex.w_t
             Hc Hk).
  - exact (proj1 (proj2 (proj2 (proj2 notify_and_forward_once))) "/a" 1%N
             Ex.w_sink Ha).
Defined.

(** C2 fails on the code: /t expires at 5s; its store is saved and the
    bytes are recovered into an empty store at 4.5s, before /t expires,
    and /t is not in the recovered map. *)
Lemma Recovery_drops_live_key_counterexample :
  Save Ex.w_t = (Ex.snap_t, None) ∧
  Nodes Ex.w_t !! "/t" = Some (mkNode "v" 5000000000 (Some 0%nat)) ∧
  4500000000 < 5000000000 ∧
  (Recovery Ex.snap_t (λ _, 4500000000) createStore).1 = None ∧
  Nodes (Recovery Ex.snap_t (λ _, 4500000000) createStore).2 !! "/t" = None.
Proof. repeat split; vm_compute; reflexivity. Qed.

(** C2 as amended, on an example: the store that holds /t, saved and
    recovered at 2s. *)
Lemma Save_Recovery_round_trip_witness :
  (Recovery Ex.snap_t (λ _, 2000000000) createStore).1 = None ∧
  ∀ key,
    Nodes (Recovery Ex.snap_t (λ _, 2000000000) createStore).2 !! key
    = match Nodes Ex.w_t !! key with
      | Some node =>
          if kept 2000000000 node
          then Some (mkNode (Value node) (ExpireTime node) None)
          else None
      | None => None
      end.
Proof.
  assert (Hrt : round_trips (snapshot (Nodes Ex.w_t))).
  { intros state Hs. vm_compute in Hs. injection Hs as <-.
    exists [("/t", ("v", 5000000000))].
    split; vm_compute; reflexivity. }
  assert (Hs : Save Ex.w_t = (Ex.snap_t, None)) by (vm_compute; reflexivity).
  exact (Save_Recovery_round_trip Ex.w_t createStore (λ _, 2000000000)
           Ex.snap_t Hrt Hs eq_refl).
Defined.

(** C3 fails on the code: the store holds /a; the snapshot holds /t
    only; after a Recovery without error /a is still in the map. *)
Lemma Recovery_keeps_old_key_counterexample :
  Unmarshal Ex.snap_t = ([("/t", ("v", 5000000000))], None) ∧
  Nodes Ex.w_a !! "/a" = Some (mkNode "1" PERMANENT (Some 0%nat)) ∧
  (Recovery Ex.snap_t (λ _, 2000000000) Ex.w_a).1 = None ∧
  Nodes (Recovery Ex.snap_t (λ _, 2000000000) Ex.w_a).2 !! "/a"
  = Some (mkNode "1" PERMANENT (Some 0%nat)).
Proof. repeat split; vm_compute; reflexivity. Qed.

(** C3 as amended, on the same example: /a, which only the map before
    had, survives the snapshot that holds /t, and does not survive the
    snapshot whose nodes are null. *)
Lemma Recovery_overlays_snapshot_witness :
  Nodes (Recovery Ex.snap_t (λ _, 2000000000) Ex.w_a).2 !! "/a"
  = Some (mkNode "1" PERMANENT (Some 0%nat)) ∧
  Nodes (Recovery Ex.null_snap (λ _, 2000000000) Ex.w_a).2 !! "/a" = None.
Proof.
  assert (Hnull : UnmarshalNull Ex.snap_t = false) by (vm_compute; reflexivity).
  assert (Hm : (list_to_map (reverse (Unmarshal Ex.snap_t).1)
                : gmap string (string * Z)) !! "/a" = None)
    by (vm_compute; reflexivity).
  assert (Hk : Nodes Ex.w_a !! "/a" = Some (mkNode "1" PERMANENT (Some 0%nat)))
    by (vm_compute; reflexivity).
  assert (Hreset : Nodes Ex.w_a = ∅ ∨ UnmarshalNull Ex.null_snap = true)
    by (right; vm_compute; reflexivity).
  split.
  - exact (proj1 (proj2 (Recovery_overlays_snapshot Ex.snap_t
                           (λ _, 2000000000) Ex.w_a "/a")) _ Hnull Hm Hk eq_refl).
  - exact (proj2 (proj2 (Recovery_overlays_snapshot Ex.null_snap
                           (λ _, 2000000000) Ex.w_a "/a")) Hreset).
Defined.

(** C4, where the code departs from it: the snapshot of the store that
    holds /t is recovered into an empty store three seconds before /t
    expires.  The node is kept and a goroutine is started on channel 0,
    but the node in the map has the nil channel, not that one: [clean]
    set the channel in its copy of the node only.  A [Delete] or a [Set]
    of /t then parks on the send to the nil channel. *)
Theorem clean_channel_not_stored :
  Nodes Ex.w_rec !! "/t" = Some (mkNode "v" 5000000000 None) ∧
  tasks Ex.w_rec = {[ 0%nat := mkTask "/t" 5000000000 ]} ∧
  Delete "/t" 7 Ex.w_rec = Blocked Ex.w_rec ∧
  Set_ "/t" "v2" 9000000000 8 3000000000 Ex.w_rec = Blocked Ex.w_rec.
Proof. repeat split; vm_compute; reflexivity. Qed.
End Examples.

(** * Further properties of the store *)

Section Compose.
Context `{GoLib}.

(** X1: after a [Set] that stores, a [Get] of any key that cleans to the
    same path returns exist=true with the value and the expiration just
    set. *)
Theorem Set_then_Get key key' value expireTime index now w :
  expireTime = PERMANENT ∨ now ≤ expireTime →
  listening w (Clean key) →
  Clean key' = Clean key →
  ∃ r w',
    Set_ key value expireTime index now w = Done r w' ∧
    Get key' w'
    = Done (mkResponse GET (Clean key) value value true expireTime 0) w'.
Proof.
  intros Hg Hl Hc.
  destruct (Set_stores key value expireTime index now w Hg Hl)
    as (upd & w' & Hs & Hn & _).
  eexists _, w'. split; [exact Hs|].
  rewrite Get_returns, Hc, Hn, lookup_insert_eq. done.
Qed.

(** X2: after a [Delete], a [Get] of any key that cleans to the same path
    reports exist=false with empty values and the sentinel, and a second
    [Delete] returns the exist=false envelope and changes nothing. *)
Theorem Delete_then_Get key key' index index' w :
  listening w (Clean key) →
  Clean key' = Clean key →
  ∃ r w',
    Delete key index w = Done r w' ∧
    Get key' w' = Done (mkResponse GET (Clean key) "" "" false PERMANENT 0) w' ∧
    Delete key' index' w'
    = Done (Marshal (mkResponse DELETE (Clean key) "" "" false PERMANENT index'))
           w'.
Proof.
  intros Hl Hc.
  assert (Hgone : ∃ r w', Delete key index w = Done r w' ∧
                          Nodes w' !! Clean key = None).
  { destruct (Nodes w !! Clean key) as [node|] eqn:Hk.
    - destruct (Delete_present key index w node Hk Hl) as (w' & Hd & Hn & _).
      eexists _, w'. split; [exact Hd|]. rewrite Hn. apply lookup_delete_eq.
    - eexists _, w. split; [by apply Delete_absent|]. done. }
  destruct Hgone as (r & w' & Hd & Hk'). exists r, w'. split; [exact Hd|].
  rewrite <- Hc in Hk'. split.
  - rewrite Get_returns, Hk', Hc. done.
  - rewrite (Delete_absent key' index' w' Hk'), Hc. done.
Qed.

(** X3: [Set], [Delete] and a timer that elapses leave the node of every
    other key as it was, also when the call parks. *)
Theorem other_keys_untouched k w :
  (∀ key value expireTime index now,
     Clean key ≠ k → Clean (Clean key) = Clean key →
     Nodes (world_of (Set_ key value expireTime index now w)) !! k
     = Nodes w !! k) ∧
  (∀ key index,
     Clean key ≠ k →
     Nodes (world_of (Delete key index w)) !! k = Nodes w !! k) ∧
  (∀ c t,
     tasks w !! c = Some t → t_key t ≠ k →
     Nodes (expire_timeout c w) !! k = Nodes w !! k).
Proof.
  assert (HDel : ∀ key index,
     Clean key ≠ k →
     Nodes (world_of (Delete key index w)) !! k = Nodes w !! k).
  { intros key index Hne. unfold Delete.
    destruct (Nodes w !! Clean key) as [node|] eqn:Hk; [|done].
    destruct (Marshal _) as [msg err].
    destruct (time.Equal (ExpireTime node) PERMANENT); unfold bind, act, send.
    - simpl. rewrite forward_Nodes. simpl. by rewrite lookup_delete_ne.
    - destruct (update node) as [c|]; [|done].
      destruct (tasks w !! c); [|done]. simpl.
      rewrite forward_Nodes. simpl. by rewrite lookup_delete_ne. }
  split; [|split; [exact HDel|]].
  - intros key value expireTime index now Hne Hidem. unfold Set_.
    destruct (negb (time.Equal expireTime PERMANENT)
              && (time.Sub expireTime now <? 0)).
    { apply HDel. by rewrite Hidem. }
    destruct (Nodes w !! Clean key) as [node|] eqn:Hk.
    + destruct (Marshal _) as [msg err].
      destruct (negb (time.Equal (ExpireTime node) PERMANENT)); unfold bind, send.
      * destruct (update node) as [c|]; [|done].
        destruct (tasks w !! c) as [t|]; [|done].
        destruct (expire_update t expireTime); simpl;
          rewrite forward_Nodes; simpl; by rewrite lookup_insert_ne.
      * destruct (negb (time.Equal expireTime PERMANENT)); simpl;
          rewrite forward_Nodes; simpl; by rewrite lookup_insert_ne.
    + destruct (Marshal _) as [msg err].
      destruct (negb (time.Equal expireTime PERMANENT)); unfold bind; simpl;
        rewrite forward_Nodes; simpl; by rewrite lookup_insert_ne.
  - intros c t Hc Hne. unfold expire_timeout. rewrite Hc.
    destruct (Nodes w !! t_key t) as [node|]; [|done].
    destruct (Marshal _) as [msg err]. simpl.
    rewrite forward_Nodes. simpl. by rewrite lookup_delete_ne.
Qed.
End Compose.

Section Goroutines.
Context `{GoLib}.

(** X4: with each call and each elapsed timer taken as one step, in every
    world reached from the created store a key that is absent or
    permanent has no goroutine, and a key with an expiration has exactly
    one, on the channel its node holds and counting down to its node's
    instant. *)
Theorem reachable_one_goroutine w key :
  reachable w →
  match Nodes w !! key with
  | Some node =>
      if time.Equal (ExpireTime node) PERMANENT
      then ∀ c t, tasks w !! c = Some t → t_key t ≠ key
      else ∃ c, update node = Some c ∧
                tasks w !! c = Some (mkTask key (ExpireTime node)) ∧
                ∀ c' t, tasks w !! c' = Some t → t_key t = key → c' = c
  | None => ∀ c t, tasks w !! c = Some t → t_key t ≠ key
  end.
Proof. intros Hr. by apply timers_ok_one_task, reachable_timers_ok. Qed.

(** X5: in every such world [Set] and [Delete] return, whatever their
    arguments: no send to a goroutine parks.  The world they leave is
    again a reached one. *)
Theorem reachable_calls_return w :
  reachable w →
  (∀ key value expireTime index now,
     ∃ r w', Set_ key value expireTime index now w = Done r w' ∧ reachable w') ∧
  (∀ key index,
     ∃ r w', Delete key index w = Done r w' ∧ reachable w').
Proof.
  intros Hr. pose proof (reachable_timers_ok w Hr) as Hok. split.
  - intros key value expireTime index now.
    destruct (Set_returns key value expireTime index now w Hok) as (r & w' & Hs).
    exists r, w'. split; [done|].
    replace w' with (world_of (Set_ key value expireTime index now w))
      by by rewrite Hs.
    eapply rtc_r; [exact Hr|]. apply step_Set.
  - intros key index.
    destruct (Delete_returns key index w Hok) as (r & w' & Hd).
    exists r, w'. split; [done|].
    replace w' with (world_of (Delete key index w)) by by rewrite Hd.
    eapply rtc_r; [exact Hr|]. apply step_Delete.
Qed.

(** X6: in every such world the timer of a live goroutine finds its key
    in the map, on the node that holds the goroutine's channel: when it
    elapses the key is removed, the watch hook gets one DELETE envelope
    with the node's value and index 0, and the goroutine is gone. *)
Theorem reachable_timer_deletes w c t :
  reachable w →
  tasks w !! c = Some t →
  ∃ node,
    Nodes w !! t_key t = Some node ∧ update node = Some c ∧
    ExpireTime node = t_expire t ∧
    Nodes (expire_timeout c w) = delete (t_key t) (Nodes w) ∧
    hub (expire_timeout c w)
    = hub w ++ [mkResponse DELETE (t_key t) (Value node) "" true
                           (ExpireTime node) 0] ∧
    tasks (expire_timeout c w) = delete c (tasks w).
Proof.
  intros Hr Hc. destruct (reachable_timers_ok w Hr) as [_ Ht].
  destruct (Ht c t Hc) as (_ & node & Hk & Hu & Hx & _).
  destruct (expire_timeout_present c t node w Hc Hk) as (Hn & Hh & _ & Htk & _).
  exists node. done.
Qed.

(** X7: a [Set] of a key that has an expiration makes no channel and
    starts no goroutine: it hands the new instant to the key's goroutine,
    which counts down to it, or returns when the instant is the sentinel;
    the node keeps its channel. *)
Theorem Set_reschedules key value expireTime index now w node c t :
  expireTime = PERMANENT ∨ now ≤ expireTime →
  Nodes w !! Clean key = Some node →
  ExpireTime node ≠ PERMANENT →
  update node = Some c →
  tasks w !! c = Some t →
  ∃ r w',
    Set_ key value expireTime index now w = Done r w' ∧
    Nodes w' !! Clean key = Some (mkNode value expireTime (Some c)) ∧
    chans w' = chans w ∧
    tasks w' = if time.Equal expireTime PERMANENT then delete c (tasks w)
               else <[c := mkTask (t_key t) expireTime]> (tasks w).
Proof.
  intros Hg Hk Hv Hu Hc. unfold Set_.
  rewrite (proj2 (Set_guard_false expireTime now) Hg), Hk.
  rewrite (proj2 (Equal_false _ _) Hv). simpl.
  destruct (Marshal _) as [msg err].
  unfold bind, send, expire_update. rewrite Hu, Hc.
  destruct (time.Equal expireTime PERMANENT); simpl;
    eexists _, _; (split; [reflexivity|]);
    rewrite forward_Nodes, forward_chans, forward_tasks; simpl;
    by rewrite lookup_insert_eq.
Qed.

(** X8: a [Set] with an expiration, of a key that is absent or permanent,
    makes one channel and starts one goroutine on it for the key and the
    instant, and the node holds that channel; a [Set] with the sentinel
    of such a key starts no goroutine. *)
Theorem Set_starts_goroutine key value expireTime index now w :
  match Nodes w !! Clean key with
  | Some node => ExpireTime node = PERMANENT
  | None => True
  end →
  (expireTime ≠ PERMANENT → now ≤ expireTime →
   ∃ r w',
     Set_ key value expireTime index now w = Done r w' ∧
     Nodes w' !! Clean key = Some (mkNode value expireTime (Some (chans w))) ∧
     tasks w' = <[chans w := mkTask (Clean key) expireTime]> (tasks w) ∧
     chans w' = S (chans w)) ∧
  (expireTime = PERMANENT →
   ∃ r w',
     Set_ key value expireTime index now w = Done r w' ∧
     tasks w' = tasks w).
Proof.
  intros Hp. split.
  - intros Hv Hn. unfold Set_.
    rewrite (proj2 (Set_guard_false expireTime now) (or_intror Hn)).
    rewrite (proj2 (Equal_false _ _) Hv). simpl.
    destruct (Nodes w !! Clean key) as [node|].
    + rewrite (proj2 (Equal_true _ _) Hp). simpl.
      destruct (Marshal _) as [msg err]. unfold bind, act, ret. simpl.
      eexists _, _. split; [reflexivity|].
      rewrite forward_Nodes, forward_chans, forward_tasks. simpl.
      by rewrite lookup_insert_eq.
    + destruct (Marshal _) as [msg err]. unfold bind, act, ret. simpl.
      eexists _, _. split; [reflexivity|].
      rewrite forward_Nodes, forward_chans, forward_tasks. simpl.
      by rewrite lookup_insert_eq.
  - intros He. unfold Set_.
    rewrite (proj2 (Set_guard_false expireTime now) (or_introl He)).
    rewrite (proj2 (Equal_true _ _) He). simpl.
    destruct (Nodes w !! Clean key) as [node|].
    + rewrite (proj2 (Equal_true _ _) Hp). simpl.
      destruct (Marshal _) as [msg err]. unfold bind, act, ret. simpl.
      eexists _, _. split; [reflexivity|]. by rewrite forward_tasks.
    + destruct (Marshal _) as [msg err]. unfold bind, act, ret. simpl.
      eexists _, _. split; [reflexivity|]. by rewrite forward_tasks.
Qed.

(** X9: a [Delete], or a [Set] that would store, of a key whose node has
    an expiration and a channel that is nil or that no goroutine receives
    on, parks on the send and has changed nothing by then: the map, the
    watch hook and the messager are as before. *)
Theorem parked_call_changes_nothing key w node :
  Nodes w !! Clean key = Some node →
  ExpireTime node ≠ PERMANENT →
  match update node with
  | Some c => tasks w !! c = None
  | None => True
  end →
  (∀ index, Delete key index w = Blocked w) ∧
  (∀ value expireTime index now,
     expireTime = PERMANENT ∨ now ≤ expireTime →
     Set_ key value expireTime index now w = Blocked w).
Proof.
  intros Hk Hv Hu. apply Equal_false in Hv. split.
  - intros index. unfold Delete. rewrite Hk, Hv.
    destruct (Marshal _) as [msg err]. unfold bind, send.
    destruct (update node) as [c|]; [by rewrite Hu|done].
  - intros value expireTime index now Hg. unfold Set_.
    rewrite (proj2 (Set_guard_false expireTime now) Hg), Hk, Hv. simpl.
    destruct (Marshal _) as [msg err]. unfold bind, send.
    destruct (update node) as [c|]; [by rewrite Hu|done].
Qed.

(** X10: with each call and each elapsed timer taken as one step, the
    watch hook only ever gets envelopes of a SET, or of a DELETE with
    exist=true and an empty new value: no GET, and no DELETE of a key
    that was absent. *)
Theorem reachable_hub_envelopes w :
  reachable w → Forall hook_envelope (hub w).
Proof.
  unfold reachable. revert w. apply rtc_ind_r; [by apply Forall_nil|].
  intros w w' Hr Hstep IH.
  pose proof (reachable_timers_ok w Hr) as Hok.
  assert (HDel : ∀ key index,
            Forall hook_envelope (hub (world_of (Delete key index w)))).
  { intros key index. destruct (Nodes w !! Clean key) as [node|] eqn:Hk.
    - destruct (Delete_present key index w node Hk (timers_ok_listening _ _ Hok))
        as (w0 & -> & _ & Hh & _). simpl. rewrite Hh.
      apply Forall_app. split; [done|]. apply Forall_singleton. by right.
    - by rewrite Delete_absent. }
  destruct Hstep.
  - destruct (negb (time.Equal expireTime PERMANENT)
              && (time.Sub expireTime now <? 0)) eqn:Hg.
    + unfold Set_. rewrite Hg. apply HDel.
    + apply Set_guard_false in Hg.
      destruct (Set_stores key value expireTime index now w Hg
                  (timers_ok_listening _ _ Hok)) as (upd & w0 & -> & _ & Hh & _).
      simpl. rewrite Hh. apply Forall_app. split; [done|]. apply Forall_singleton.
      left. by destruct (Nodes w !! Clean key).
  - apply HDel.
  - by rewrite Get_returns.
  - done.
  - destruct (tasks w !! c) as [t|] eqn:Hc.
    + destruct Hok as [_ Ht].
      destruct (Ht c t Hc) as (_ & node & Hk & _).
      destruct (expire_timeout_present c t node w Hc Hk) as (_ & Hh & _).
      rewrite Hh. apply Forall_app. split; [done|]. apply Forall_singleton. by right.
    + unfold expire_timeout. by rewrite Hc.
Qed.
End Goroutines.

Section Cleanup.
Context `{GoLib}.

(** X11: [clean] only drops nodes, and says nothing: a node is in the map
    afterwards exactly when it was there before and is permanent or
    expires a second or more after the clock reading taken at its key;
    the watch hook is not called and nothing goes to the messager for
    the dropped keys. *)
Theorem clean_only_drops now w :
  hub (clean now w) = hub w ∧
  messager (clean now w) = messager w ∧
  ∀ key node,
    Nodes (clean now w) !! key = Some node
    ↔ Nodes w !! key = Some node ∧
      (ExpireTime node = PERMANENT ∨ now key + 1000000000 ≤ ExpireTime node).
Proof.
  split; [apply clean_hub|]. split; [apply clean_messager|].
  intros key node. rewrite clean_Nodes, <- kept_iff.
  destruct (Nodes w !! key) as [node'|]; [|by split; [|intros [? _]]].
  destruct (kept (now key) node') eqn:Hkept; split.
  - intros [= <-]. done.
  - intros [[= <-] _]. done.
  - done.
  - intros [[= <-] Hk]. congruence.
Qed.

(** X12: [clean] makes a channel and starts a goroutine on it for every
    node with an expiration that it keeps, and leaves the goroutines on
    the channels made before as they are. *)
Theorem clean_goroutines now w :
  (chans w ≤ chans (clean now w))%nat ∧
  (∀ c, (c < chans w)%nat → tasks (clean now w) !! c = tasks w !! c) ∧
  (∀ key node,
     Nodes w !! key = Some node →
     ExpireTime node ≠ PERMANENT →
     now key + 1000000000 ≤ ExpireTime node →
     ∃ c, (chans w ≤ c < chans (clean now w))%nat ∧
          tasks (clean now w) !! c = Some (mkTask key (ExpireTime node))).
Proof.
  unfold clean.
  destruct (clean_loop now w (Nodes w)) as (_ & _ & _ & Hle & Hold & Hnew).
  split; [exact Hle|]. split; [exact Hold|].
  intros key node Hk Hv Hs. apply Hnew; [done|done|].
  apply kept_iff. by right.
Qed.

(** X13: [Recovery] of a snapshot for which the decoder does not empty
    the map (its nodes are not null), into a store where nodes and
    goroutines agree, gives a second goroutine to every key with an
    expiration a second or more away that the snapshot does not hold:
    the node and its goroutine stay, and [clean] starts another one for
    the key on a new channel, which the node does not hold. *)
Theorem Recovery_second_goroutine state now w key node :
  timers_ok w →
  UnmarshalNull state = false →
  (list_to_map (reverse (Unmarshal state).1) : gmap string (string * Z)) !! key
    = None →
  Nodes w !! key = Some node →
  ExpireTime node ≠ PERMANENT →
  now key + 1000000000 ≤ ExpireTime node →
  ∃ c c',
    (c < chans w ≤ c')%nat ∧
    Nodes (Recovery state now w).2 !! key = Some node ∧
    update node = Some c ∧
    tasks (Recovery state now w).2 !! c = Some (mkTask key (ExpireTime node)) ∧
    tasks (Recovery state now w).2 !! c' = Some (mkTask key (ExpireTime node)).
Proof.
  intros [Hn Ht] Hnull Hm Hk Hv Hs.
  destruct (Hn key node Hk Hv) as (c & Hu & Hc).
  destruct (Ht c _ Hc) as (Hlt & _).
  assert (Hkept : kept (now key) node = true) by (apply kept_iff; by right).
  assert (Hnode : Nodes (Recovery state now w).2 !! key = Some node).
  { by rewrite Recovery_Nodes, decode_into_lookup, Hm, Hnull, Hk, Hkept. }
  unfold Recovery in *. rewrite Hnull in *.
  destruct (Unmarshal state) as [members err].
  simpl in *.
  set (w1 := mkWorld (decode_into (Nodes w) members) (messager w) (hub w)
                     (tasks w) (chans w)) in *.
  assert (Hk1 : Nodes w1 !! key = Some node)
    by (subst w1; simpl; by rewrite decode_into_lookup, Hm).
  unfold clean in *.
  destruct (clean_loop now w1 (Nodes w1)) as (_ & _ & _ & _ & Hold & Hnew).
  destruct (Hnew key node Hk1 Hv Hkept) as (c' & Hc' & Htask).
  exists c, c'. simpl in *. repeat split; try done; try lia.
  rewrite Hold by done. done.
Qed.

(** X14: when the bytes do not decode and no member was stored from
    them, [Recovery] returns the decoder's error and has still cleaned
    the map that was there: its nodes with an expiration less than a
    second away are dropped, the others stay.  (Had the decoder met null
    for the nodes before the error, the map it emptied stays empty.) *)
Theorem Recovery_failed_decode state now w e :
  Unmarshal state = ([], Some e) →
  (Recovery state now w).1 = Some e ∧
  ∀ key,
    Nodes (Recovery state now w).2 !! key
    = if UnmarshalNull state then None
      else match Nodes w !! key with
           | Some node => if kept (now key) node then Some node else None
           | None => None
           end.
Proof.
  intros Hu. split; [by rewrite Recovery_error, Hu|].
  intros key. rewrite Recovery_Nodes, Hu. simpl.
  destruct (UnmarshalNull state); [by rewrite lookup_empty|done].
Qed.

(** X15: a permanent key that [Recovery] took from the snapshot can be
    deleted and set: the calls return, [Delete] with the envelope of the
    recovered value and the key gone, [Set] with the node stored. *)
Theorem Recovery_permanent_key_usable state now w key k ve :
  (list_to_map (reverse (Unmarshal state).1) : gmap string (string * Z)) !! key
    = Some ve →
  ve.2 = PERMANENT →
  Clean k = key →
  Nodes (Recovery state now w).2 !! key = Some (mkNode ve.1 PERMANENT None) ∧
  (∀ index, ∃ w',
     Delete k index (Recovery state now w).2
     = Done (Marshal (mkResponse DELETE key ve.1 "" true PERMANENT index)) w' ∧
     Nodes w' !! key = None) ∧
  (∀ value expireTime index t,
     expireTime = PERMANENT ∨ t ≤ expireTime →
     ∃ r upd w',
       Set_ k value expireTime index t (Recovery state now w).2 = Done r w' ∧
       Nodes w' !! key = Some (mkNode value expireTime upd)).
Proof.
  intros Hm Hp <-.
  assert (Hk : Nodes (Recovery state now w).2 !! Clean k
               = Some (mkNode ve.1 PERMANENT None)).
  { rewrite Recovery_Nodes, decode_into_lookup, Hm. unfold decoded, kept.
    simpl. rewrite Hp. done. }
  assert (Hl : listening (Recovery state now w).2 (Clean k)).
  { intros node Hnode Hv. rewrite Hk in Hnode. injection Hnode as <-. done. }
  split; [exact Hk|]. split.
  - intros index.
    destruct (Delete_present k index _ _ Hk Hl) as (w' & Hd & Hn & _).
    exists w'. split; [exact Hd|]. rewrite Hn. apply lookup_delete_eq.
  - intros value expireTime index t Hg.
    destruct (Set_stores k value expireTime index t _ Hg Hl)
      as (upd & w' & Hs & Hn & _).
    eexists _, upd, w'. split; [exact Hs|]. rewrite Hn. apply lookup_insert_eq.
Qed.
End Cleanup.

Section Lifetime.
Context `{GoLib}.

(** X16: a [Set] that stores returns the encoding of the SET envelope for
    the cleaned key with the value and existence of the key before the
    call, the new value, the expiration and the index given, and that
    envelope is the one the watch hook gets. *)
Theorem Set_envelope key value expireTime index now w :
  expireTime = PERMANENT ∨ now ≤ expireTime →
  listening w (Clean key) →
  ∃ w',
    Set_ key value expireTime index now w
    = Done (Marshal
              (mkResponse SET (Clean key)
                 (from_option Value "" (Nodes w !! Clean key)) value
                 (bool_decide (is_Some (Nodes w !! Clean key)))
                 expireTime index)) w' ∧
    hub w'
    = hub w ++ [mkResponse SET (Clean key)
                  (from_option Value "" (Nodes w !! Clean key)) value
                  (bool_decide (is_Some (Nodes w !! Clean key)))
                  expireTime index].
Proof.
  intros Hg Hl.
  destruct (Set_stores key value expireTime index now w Hg Hl)
    as (upd & w' & Hs & _ & Hh & _).
  exists w'. destruct (Nodes w !! Clean key) as [node|]; simpl in *; done.
Qed.

(** X17: with each call and each elapsed timer taken as one step, a [Set]
    with an expiration, in a reached world, leaves a goroutine for the
    key; when its timer elapses the key is gone from the map and the
    watch hook gets the DELETE envelope with the value set, that
    expiration and index 0. *)
Theorem Set_then_timer key value expireTime index now w :
  reachable w →
  expireTime ≠ PERMANENT → now ≤ expireTime →
  ∃ r w' c,
    Set_ key value expireTime index now w = Done r w' ∧
    tasks w' !! c = Some (mkTask (Clean key) expireTime) ∧
    Nodes (expire_timeout c w') !! Clean key = None ∧
    hub (expire_timeout c w')
    = hub w' ++ [mkResponse DELETE (Clean key) value "" true expireTime 0].
Proof.
  intros Hr Hv Hn. pose proof (reachable_timers_ok w Hr) as Hok.
  destruct (Set_stores key value expireTime index now w (or_intror Hn)
              (timers_ok_listening _ _ Hok)) as (upd & w' & Hs & Hnodes & _).
  assert (Hok' : timers_ok w').
  { replace w' with (world_of (Set_ key value expireTime index now w))
      by by rewrite Hs.
    by apply timers_ok_Set. }
  assert (Hk : Nodes w' !! Clean key = Some (mkNode value expireTime upd))
    by (rewrite Hnodes; apply lookup_insert_eq).
  destruct Hok' as [Hn' _]. destruct (Hn' _ _ Hk Hv) as (c & _ & Hc).
  destruct (expire_timeout_present c _ _ w' Hc Hk) as (Hdel & Hh & _).
  eexists _, w', c. split; [exact Hs|]. split; [exact Hc|].
  split; [|exact Hh]. rewrite Hdel. apply lookup_delete_eq.
Qed.
End Lifetime.

(** * The further properties on examples *)

Section MoreExamples.
Import Demo.

Lemma reachable_w_t : reachable Ex.w_t.
Proof.
  unfold reachable, Ex.w_t.
  eapply rtc_r; [|apply step_Set].
  eapply rtc_r; [apply rtc_refl|apply step_SetMessager].
Defined.

Lemma timers_ok_w_t : timers_ok Ex.w_t.
Proof. apply reachable_timers_ok, reachable_w_t. Defined.

Lemma listening_w_ta key : listening Ex.w_ta key.
Proof. apply timers_ok_listening, timers_ok_Set, timers_ok_w_t. Defined.

(** X1 on an example: /a//b is set and /a/./b is read. *)
Lemma Set_then_Get_witness :
  ∃ r w',
    Set_ "/a//b" "1" PERMANENT 1 1000000000 createStore = Done r w' ∧
    Get "/a/./b" w' = Done (mkResponse GET "/a/b" "1" "1" true PERMANENT 0) w'.
Proof.
  assert (Hc : Clean "/a/./b" = Clean "/a//b") by (vm_compute; reflexivity).
  exact (Set_then_Get "/a//b" "/a/./b" "1" PERMANENT 1%N 1000000000 createStore
           (or_introl eq_refl) (listening_createStore _) Hc).
Defined.

(** X2 on an example: /t is deleted, read and deleted again. *)
Lemma Delete_then_Get_witness :
  ∃ r w',
    Delete "/t" 7 Ex.w_t = Done r w' ∧
    Get "/x/../t" w' = Done (mkResponse GET "/t" "" "" false PERMANENT 0) w' ∧
    Delete "/x/../t" 8 w'
    = Done (Marshal (mkResponse DELETE "/t" "" "" false PERMANENT 8)) w'.
Proof.
  assert (Hc : Clean "/x/../t" = Clean "/t") by (vm_compute; reflexivity).
  exact (Delete_then_Get "/t" "/x/../t" 7%N 8%N Ex.w_t (listening_w_t _) Hc).
Defined.

(** X3 on an example: in the store that holds /t and /a, what is done to
    /t leaves /a. *)
Lemma other_keys_untouched_witness :
  Nodes (world_of (Set_ "/t" "v2" 9000000000 6 2000000000 Ex.w_ta)) !! "/a"
  = Nodes Ex.w_ta !! "/a" ∧
  Nodes (world_of (Delete "/t" 7 Ex.w_ta)) !! "/a" = Nodes Ex.w_ta !! "/a" ∧
  Nodes (expire_timeout 0%nat Ex.w_ta) !! "/a" = Nodes Ex.w_ta !! "/a".
Proof.
  assert (Hne : Clean "/t" ≠ "/a") by (vm_compute; discriminate).
  assert (Hidem : Clean (Clean "/t") = Clean "/t") by (vm_compute; reflexivity).
  assert (Hc : tasks Ex.w_ta !! 0%nat = Some (mkTask "/t" 5000000000))
    by (vm_compute; reflexivity).
  assert (Hk : t_key (mkTask "/t" 5000000000) ≠ "/a") by discriminate.
  split; [|split].
  - exact (proj1 (other_keys_untouched "/a" Ex.w_ta) "/t" "v2" 9000000000 6%N
             2000000000 Hne Hidem).
  - exact (proj1 (proj2 (other_keys_untouched "/a" Ex.w_ta)) "/t" 7%N Hne).
  - exact (proj2 (proj2 (other_keys_untouched "/a" Ex.w_ta)) 0%nat _ Hc Hk).
Defined.

(** X4 on an example: /t in the store that holds it. *)
Lemma reachable_one_goroutine_witness :
  ∃ c, Some 0%nat = Some c ∧
       tasks Ex.w_t !! c = Some (mkTask "/t" 5000000000) ∧
       ∀ c' t, tasks Ex.w_t !! c' = Some t → t_key t = "/t" → c' = c.
Proof. exact (reachable_one_goroutine Ex.w_t "/t" reachable_w_t). Defined.

(** X5 on an example: a [Set] and a [Delete] of /t. *)
Lemma reachable_calls_return_witness :
  (∃ r w', Set_ "/t" "v2" 9000000000 6 2000000000 Ex.w_t = Done r w' ∧
           reachable w') ∧
  (∃ r w', Delete "/t" 7 Ex.w_t = Done r w' ∧ reachable w').
Proof.
  split.
  - exact (proj1 (reachable_calls_return Ex.w_t reachable_w_t) "/t" "v2"
             9000000000 6%N 2000000000).
  - exact (proj2 (reachable_calls_return Ex.w_t reachable_w_t) "/t" 7%N).
Defined.

(** X6 on an example: the timer of /t. *)
Lemma reachable_timer_deletes_witness :
  ∃ node,
    Nodes Ex.w_t !! "/t" = Some node ∧ update node = Some 0%nat ∧
    ExpireTime node = 5000000000 ∧
    Nodes (expire_timeout 0%nat Ex.w_t) = delete "/t" (Nodes Ex.w_t) ∧
    hub (expire_timeout 0%nat Ex.w_t)
    = hub Ex.w_t ++ [mkResponse DELETE "/t" (Value node) "" true
                                (ExpireTime node) 0] ∧
    tasks (expire_timeout 0%nat Ex.w_t) = delete 0%nat (tasks Ex.w_t).
Proof.
  assert (Hc : tasks Ex.w_t !! 0%nat = Some (mkTask "/t" 5000000000))
    by (vm_compute; reflexivity).
  exact (reachable_timer_deletes Ex.w_t 0%nat _ reachable_w_t Hc).
Defined.
(** X7 on an example: /t, which expires at 5s, is set at 2s to expire at
    9s. *)
Lemma Set_reschedules_witness :
  ∃ r w',
    Set_ "/t" "v2" 9000000000 6 2000000000 Ex.w_t = Done r w' ∧
    Nodes w' !! "/t" = Some (mkNode "v2" 9000000000 (Some 0%nat)) ∧
    chans w' = chans Ex.w_t ∧
    tasks w' = <[0%nat := mkTask "/t" 9000000000]> (tasks Ex.w_t).
Proof.
  assert (Hg : 9000000000 = PERMANENT ∨ 2000000000 ≤ 9000000000)
    by (right; discriminate).
  assert (Hk : Nodes Ex.w_t !! Clean "/t"
               = Some (mkNode "v" 5000000000 (Some 0%nat)))
    by (vm_compute; reflexivity).
  assert (Hv : ExpireTime (mkNode "v" 5000000000 (Some 0%nat)) ≠ PERMANENT)
    by discriminate.
  assert (Hc : tasks Ex.w_t !! 0%nat = Some (mkTask "/t" 5000000000))
    by (vm_compute; reflexivity).
  exact (Set_reschedules "/t" "v2" 9000000000 6%N 2000000000 Ex.w_t _ 0%nat _
           Hg Hk Hv eq_refl Hc).
Defined.

(** X8 on examples: the permanent key /a gets an expiration, and is set
    again without one. *)
Lemma Set_starts_goroutine_witness :
  (∃ r w',
     Set_ "/a" "2" 5000000000 3 2000000000 Ex.w_a = Done r w' ∧
     Nodes w' !! "/a" = Some (mkNode "2" 5000000000 (Some 1%nat)) ∧
     tasks w' = <[1%nat := mkTask "/a" 5000000000]> (tasks Ex.w_a) ∧
     chans w' = 2%nat) ∧
  (∃ r w',
     Set_ "/a" "2" PERMANENT 3 2000000000 Ex.w_a = Done r w' ∧
     tasks w' = tasks Ex.w_a).
Proof.
  assert (Hp : match Nodes Ex.w_a !! Clean "/a" with
               | Some node => ExpireTime node = PERMANENT
               | None => True
               end) by (vm_compute; reflexivity).
  assert (Hv : 5000000000 ≠ PERMANENT) by discriminate.
  assert (Hn : 2000000000 ≤ 5000000000) by discriminate.
  split.
  - exact (proj1 (Set_starts_goroutine "/a" "2" 5000000000 3%N 2000000000
                    Ex.w_a Hp) Hv Hn).
  - exact (proj2 (Set_starts_goroutine "/a" "2" PERMANENT 3%N 2000000000
                    Ex.w_a Hp) eq_refl).
Defined.

(** X9 on an example: /t in the store recovered from the snapshot, whose
    node has the nil channel. *)
Lemma parked_call_changes_nothing_witness :
  Delete "/t" 7 Ex.w_rec = Blocked Ex.w_rec ∧
  Set_ "/t" "v2" 9000000000 8 3000000000 Ex.w_rec = Blocked Ex.w_rec.
Proof.
  assert (Hk : Nodes Ex.w_rec !! Clean "/t" = Some (mkNode "v" 5000000000 None))
    by (vm_compute; reflexivity).
  assert (Hv : ExpireTime (mkNode "v" 5000000000 None) ≠ PERMANENT)
    by discriminate.
  assert (Hg : 9000000000 = PERMANENT ∨ 3000000000 ≤ 9000000000)
    by (right; discriminate).
  split.
  - exact (proj1 (parked_call_changes_nothing "/t" Ex.w_rec _ Hk Hv I) 7%N).
  - exact (proj2 (parked_call_changes_nothing "/t" Ex.w_rec _ Hk Hv I) "v2"
             9000000000 8%N 3000000000 Hg).
Defined.

(** X10 on an example: the store that holds /t and /a. *)
Lemma reachable_hub_envelopes_witness : Forall hook_envelope (hub Ex.w_ta).
Proof.
  assert (Hr : reachable Ex.w_ta).
  { unfold reachable, Ex.w_ta. eapply rtc_r; [apply reachable_w_t|].
    apply step_Set. }
  exact (reachable_hub_envelopes Ex.w_ta Hr).
Defined.

(** X12 on an example: [clean] at 2s in the store that holds /t. *)
Lemma clean_goroutines_witness :
  ∃ c, (chans Ex.w_t ≤ c < chans (clean (λ _, 2000000000%Z) Ex.w_t))%nat ∧
       tasks (clean (λ _, 2000000000) Ex.w_t) !! c
       = Some (mkTask "/t" 5000000000).
Proof.
  assert (Hk : Nodes Ex.w_t !! "/t" = Some (mkNode "v" 5000000000 (Some 0%nat)))
    by (vm_compute; reflexivity).
  assert (Hv : ExpireTime (mkNode "v" 5000000000 (Some 0%nat)) ≠ PERMANENT)
    by discriminate.
  assert (Hs : 2000000000 + 1000000000
               ≤ ExpireTime (mkNode "v" 5000000000 (Some 0%nat)))
    by discriminate.
  exact (proj2 (proj2 (clean_goroutines (λ _, 2000000000) Ex.w_t)) "/t" _
           Hk Hv Hs).
Defined.

(** X13 on an example: the snapshot of the store that holds /a is
    recovered at 2s into the store that holds /t. *)
Lemma Recovery_second_goroutine_witness :
  ∃ c c',
    (c < chans Ex.w_t ≤ c')%nat ∧
    Nodes (Recovery (Save Ex.w_a).1 (λ _, 2000000000) Ex.w_t).2 !! "/t"
    = Some (mkNode "v" 5000000000 (Some 0%nat)) ∧
    Some 0%nat = Some c ∧
    tasks (Recovery (Save Ex.w_a).1 (λ _, 2000000000) Ex.w_t).2 !! c
    = Some (mkTask "/t" 5000000000) ∧
    tasks (Recovery (Save Ex.w_a).1 (λ _, 2000000000) Ex.w_t).2 !! c'
    = Some (mkTask "/t" 5000000000).
Proof.
  assert (Hm : (list_to_map (reverse (Unmarshal (Save Ex.w_a).1).1)
                : gmap string (string * Z)) !! "/t" = None)
    by (vm_compute; reflexivity).
  assert (Hk : Nodes Ex.w_t !! "/t" = Some (mkNode "v" 5000000000 (Some 0%nat)))
    by (vm_compute; reflexivity).
  assert (Hv : ExpireTime (mkNode "v" 5000000000 (Some 0%nat)) ≠ PERMANENT)
    by discriminate.
  assert (Hs : 2000000000 + 1000000000
               ≤ ExpireTime (mkNode "v" 5000000000 (Some 0%nat)))
    by discriminate.
  assert (Hnull : UnmarshalNull (Save Ex.w_a).1 = false)
    by (vm_compute; reflexivity).
  exact (Recovery_second_goroutine (Save Ex.w_a).1 (λ _, 2000000000) Ex.w_t
           "/t" _ timers_ok_w_t Hnull Hm Hk Hv Hs).
Defined.

(** X14 on an example: bytes that are no snapshot, recovered at 4.5s into
    the store that holds /t. *)
Lemma Recovery_failed_decode_witness :
  (Recovery Ex.junk (λ _, 4500000000) Ex.w_t).1 = Some "invalid snapshot" ∧
  ∀ key,
    Nodes (Recovery Ex.junk (λ _, 4500000000) Ex.w_t).2 !! key
    = match Nodes Ex.w_t !! key with
      | Some node => if kept 4500000000 node then Some node else None
      | None => None
      end.
Proof.
  assert (Hu : Unmarshal Ex.junk = ([], Some "invalid snapshot"))
    by (vm_compute; reflexivity).
  exact (Recovery_failed_decode Ex.junk (λ _, 4500000000) Ex.w_t _ Hu).
Defined.

(** X15 on an example: the permanent key /a recovered from a snapshot. *)
Lemma Recovery_permanent_key_usable_witness :
  Nodes Ex.w_rec_a !! "/a" = Some (mkNode "1" PERMANENT None) ∧
  (∀ index, ∃ w',
     Delete "/a" index Ex.w_rec_a
     = Done (Marshal (mkResponse DELETE "/a" "1" "" true PERMANENT index)) w' ∧
     Nodes w' !! "/a" = None) ∧
  (∀ value expireTime index t,
     expireTime = PERMANENT ∨ t ≤ expireTime →
     ∃ r upd w',
       Set_ "/a" value expireTime index t Ex.w_rec_a = Done r w' ∧
       Nodes w' !! "/a" = Some (mkNode value expireTime upd)).
Proof.
  assert (Hm : (list_to_map (reverse (Unmarshal (Save Ex.w_a).1).1)
                : gmap string (string * Z)) !! "/a" = Some ("1", PERMANENT))
    by (vm_compute; reflexivity).
  assert (Hc : Clean "/a" = "/a") by (vm_compute; reflexivity).
  exact (Recovery_permanent_key_usable (Save Ex.w_a).1 (λ _, 2000000000)
           createStore "/a" "/a" _ Hm eq_refl Hc).
Defined.

(** X16 on an example: /t, which holds v, is set to v2. *)
Lemma Set_envelope_witness :
  ∃ w',
    Set_ "/t" "v2" 9000000000 6 2000000000 Ex.w_t
    = Done (Marshal (mkResponse SET "/t" "v" "v2" true 9000000000 6)) w' ∧
    hub w' = hub Ex.w_t ++ [mkResponse SET "/t" "v" "v2" true 9000000000 6].
Proof.
  assert (Hg : 9000000000 = PERMANENT ∨ 2000000000 ≤ 9000000000)
    by (right; discriminate).
  exact (Set_envelope "/t" "v2" 9000000000 6%N 2000000000 Ex.w_t Hg
           (listening_w_t _)).
Defined.

(** X17 on an example: /n is set at 2s to expire at 3s in the store that
    holds /t. *)
Lemma Set_then_timer_witness :
  ∃ r w' c,
    Set_ "/n" "x" 3000000000 6 2000000000 Ex.w_t = Done r w' ∧
    tasks w' !! c = Some (mkTask "/n" 3000000000) ∧
    Nodes (expire_timeout c w') !! "/n" = None ∧
    hub (expire_timeout c w')
    = hub w' ++ [mkResponse DELETE "/n" "x" "" true 3000000000 0].
Proof.
  assert (Hv : 3000000000 ≠ PERMANENT) by discriminate.
  assert (Hn : 2000000000 ≤ 3000000000) by discriminate.
  exact (Set_then_timer "/n" "x" 3000000000 6%N 2000000000 Ex.w_t
           reachable_w_t Hv Hn).
Defined.
End MoreExamples.
